(** * Duplicate-line detection (chapter01/exercises/ex3.go)

    A shallow embedding of the duplicate line counter of exercise 1.3:
    the key normaliser [getKey], the per-source reader [collectLines],
    the aggregating consumer of [DupDetectFiles] and the single-pass
    [DupDetectSorted], followed by the properties of the written
    specification that were checked against them.  The other functions
    of the file ([DupDetect], [OriginalDupDetect]) and the argument
    joiners of ex2.go are embedded after them, with further properties
    at the end.

    Conventions.  Go's [string] is a sequence of bytes and so is Rocq's
    [string] (a list of 8-bit [ascii]); [len(s)] is [String.length s].
    Go's [int] is taken at its 64-bit width: a value is a [Z] kept in
    [-2^63, 2^63) by [wrap].  Go maps are [gmap]s; a [range] over a map
    visits the entries in an order the language leaves open, which is
    modelled by handing the loop any permutation of [map_to_list]. *)

From Stdlib Require Import ZArith Lia Ascii String List DecimalString.
From stdpp Require Import gmap strings list fin_maps sorting.

Local Open Scope string_scope.
Local Open Scope list_scope.
Local Open Scope Z_scope.

(** ** Machine integers *)

Definition wrap (z : Z) : Z := (z + 2 ^ 63) mod 2 ^ 64 - 2 ^ 63.

Definition int_ok (z : Z) : Prop := - 2 ^ 63 <= z < 2 ^ 63.

(** ** crypto/sha256 and the "%x" verb

    [sha256.Sum256] and [fmt.Sprintf] belong to Go's standard library.
    They are written out here after the library's generic block function
    (FIPS 180-4) so that [hashString] can be evaluated; the examples
    [sum256_empty], [sum256_abc] and [sum256_two_blocks] compare it with
    published digests. *)

Module sha256.

Definition u32 (x : Z) : Z := x mod 2 ^ 32.

Definition add32 (x y : Z) : Z := u32 (x + y).

(** [bits.RotateLeft32(x, -n)] *)
Definition rotr (x n : Z) : Z :=
  Z.lor (Z.shiftr x n) (u32 (Z.shiftl x (32 - n))).

(** [^x] on a [uint32] *)
Definition not32 (x : Z) : Z := Z.lxor x 0xffffffff.

(** The first 64 primes. *)
Definition primes : list Z :=
  [ 2; 3; 5; 7; 11; 13; 17; 19; 23; 29; 31; 37; 41; 43; 47; 53; 59; 61; 67; 71;
    73; 79; 83; 89; 97; 101; 103; 107; 109; 113; 127; 131; 137; 139; 149; 151;
    157; 163; 167; 173; 179; 181; 191; 193; 197; 199; 211; 223; 227; 229; 233;
    239; 241; 251; 257; 263; 269; 271; 277; 281; 283; 293; 307; 311 ].

(** The largest [r] below [2 ^ bits] with [r ^ 3 <= n], bit by bit. *)
Fixpoint cube_root (bits : nat) (n r : Z) : Z :=
  match bits with
  | O => r
  | S bits' =>
      let r' := r + 2 ^ Z.of_nat bits' in
      cube_root bits' n (if r' * r' * r' <=? n then r' else r)
  end.

(** The round constants [_K]: the first 32 bits of the fractional parts
    of the cube roots of the primes. *)
Definition _K : list Z :=
  Eval vm_compute in List.map (fun p => u32 (cube_root 40 (p * 2 ^ 96) 0)) primes.

(** The eight chaining words [h[0..7]] of a [digest]. *)
Record digest := Digest {
  h0 : Z; h1 : Z; h2 : Z; h3 : Z; h4 : Z; h5 : Z; h6 : Z; h7 : Z
}.

(** [init0 .. init7]: the first 32 bits of the fractional parts of the
    square roots of the first eight primes. *)
Definition frac_sqrt (p : Z) : Z := u32 (Z.sqrt (p * 2 ^ 64)).

Definition init : digest :=
  Eval vm_compute in
    Digest (frac_sqrt 2) (frac_sqrt 3) (frac_sqrt 5) (frac_sqrt 7)
           (frac_sqrt 11) (frac_sqrt 13) (frac_sqrt 17) (frac_sqrt 19).

(** [w[i] = p[j]<<24 | p[j+1]<<16 | p[j+2]<<8 | p[j+3]] for [i < 16] *)
Fixpoint load_words (n : nat) (p : list Z) : list Z :=
  match n, p with
  | S n', b0 :: b1 :: b2 :: b3 :: p' =>
      Z.lor (Z.lor (Z.lor (Z.shiftl b0 24) (Z.shiftl b1 16)) (Z.shiftl b2 8)) b3
      :: load_words n' p'
  | _, _ => []
  end.

Definition word_at (w : list Z) (i : nat) : Z := nth i w 0.

(** [w[i] = t1 + w[i-7] + t2 + w[i-16]] for [16 <= i < 64]; [w] holds
    the words [0..i-1] on entry. *)
Fixpoint schedule (n : nat) (w : list Z) : list Z :=
  match n with
  | O => w
  | S n' =>
      let i := List.length w in
      let v1 := word_at w (i - 2) in
      let t1 := Z.lxor (Z.lxor (rotr v1 17) (rotr v1 19)) (Z.shiftr v1 10) in
      let v2 := word_at w (i - 15) in
      let t2 := Z.lxor (Z.lxor (rotr v2 7) (rotr v2 18)) (Z.shiftr v2 3) in
      schedule n'
        (w ++ [add32 (add32 (add32 t1 (word_at w (i - 7))) t2) (word_at w (i - 16))])
  end.

(** One turn of the 64-round loop on the working variables [a..h]. *)
Definition round (s : digest) (kw : Z * Z) : digest :=
  let '(Digest a b c d e f g h) := s in
  let t1 :=
    add32 (add32 (add32 (add32 h
      (Z.lxor (Z.lxor (rotr e 6) (rotr e 11)) (rotr e 25)))
      (Z.lxor (Z.land e f) (Z.land (not32 e) g))) (fst kw)) (snd kw) in
  let t2 :=
    add32 (Z.lxor (Z.lxor (rotr a 2) (rotr a 13)) (rotr a 22))
          (Z.lxor (Z.lxor (Z.land a b) (Z.land a c)) (Z.land b c)) in
  Digest (add32 t1 t2) a b c (add32 d t1) e f g.

(** The body of [blockGeneric] for one 64-byte chunk [p]. *)
Definition block (dig : digest) (p : list Z) : digest :=
  let w := schedule 48 (load_words 16 p) in
  let r := fold_left round (combine _K w) dig in
  Digest (add32 (h0 dig) (h0 r)) (add32 (h1 dig) (h1 r))
         (add32 (h2 dig) (h2 r)) (add32 (h3 dig) (h3 r))
         (add32 (h4 dig) (h4 r)) (add32 (h5 dig) (h5 r))
         (add32 (h6 dig) (h6 r)) (add32 (h7 dig) (h7 r)).

(** [for len(p) >= chunk { ...; p = p[chunk:] }] *)
Fixpoint blockGeneric (n : nat) (dig : digest) (p : list Z) : digest :=
  match n with
  | O => dig
  | S n' => blockGeneric n' (block dig (firstn 64 p)) (skipn 64 p)
  end.

Definition be_bytes (k : nat) (x : Z) : list Z :=
  List.map (fun i => Z.shiftr x (8 * Z.of_nat i) mod 256) (rev (seq 0 k)).

(** [checkSum]: 0x80, zeros up to 56 mod 64, the bit length on 8 bytes. *)
Definition padding (len : Z) : list Z :=
  0x80 :: List.repeat 0 (Z.to_nat ((55 - len) mod 64))
  ++ be_bytes 8 ((8 * len) mod 2 ^ 64).

Definition Sum256 (data : list Z) : list Z :=
  let len := Z.of_nat (List.length data) in
  let p := data ++ padding len in
  let d := blockGeneric (List.length p / 64) init p in
  be_bytes 4 (h0 d) ++ be_bytes 4 (h1 d) ++ be_bytes 4 (h2 d)
  ++ be_bytes 4 (h3 d) ++ be_bytes 4 (h4 d) ++ be_bytes 4 (h5 d)
  ++ be_bytes 4 (h6 d) ++ be_bytes 4 (h7 d).

End sha256.

(** [[]byte(s)] *)
Fixpoint bytes_of_string (s : string) : list Z :=
  match s with
  | EmptyString => []
  | String c s' => Z.of_N (N_of_ascii c) :: bytes_of_string s'
  end.

Definition hex_digit (d : Z) : ascii :=
  if d <? 10 then ascii_of_N (Z.to_N (48 + d)) else ascii_of_N (Z.to_N (87 + d)).

(** [fmt.Sprintf("%x", b)] for a byte array [b]: two lower-case digits
    for each byte. *)
Fixpoint sprintf_x (b : list Z) : string :=
  match b with
  | [] => EmptyString
  | x :: b' => String (hex_digit (x / 16)) (String (hex_digit (x mod 16)) (sprintf_x b'))
  end.

(** ** Key normaliser *)

Definition hashString (s : string) : string :=
  sprintf_x (sha256.Sum256 (bytes_of_string s)).

Definition len (s : string) : Z := Z.of_nat (String.length s).

Definition getKey (s : string) : string :=
  if len s <? 32 then s else hashString s.

(** ** Data model *)

Record rawLineData := RawLineData {
  lineText : string;
  fileName : string;
  lineNum : Z
}.

Record lineData := LineData {
  locations : gmap string (list Z);
  count : Z
}.

(** What the process sees of its environment: [os_Open name] is [None]
    when [os.Open] returns an error and otherwise the lines that a
    [bufio.Scanner] yields on the file, [os_Stdin] the lines scanned from
    the standard input.  A file named several times is opened and read
    in full by each of its readers.  The standard input is modelled for
    one reader: several readers would share its bytes between them. *)
Record world := World {
  os_Open : string -> option (list string);
  os_Stdin : list string
}.

(** A function either returns or panics.  [stdout] lists the texts
    written, one per call of [fmt.Printf] or [fmt.Println]. *)
Inductive outcome := Returned | Panicked (msg : string).

Record run := Run { stdout : list string; result : outcome }.

Inductive res (A : Type) := Ok (a : A) | Panic (msg : string).
Arguments Ok {A} a.
Arguments Panic {A} msg.

Definition bind {A B} (r : res A) (k : A -> res B) : res B :=
  match r with
  | Ok a => k a
  | Panic msg => Panic msg
  end.

Notation "x <- r ;; k" := (bind r (fun x => k))
  (at level 100, r at next level, right associativity).

(** ** fmt verbs *)

Definition tab : string := String "009" EmptyString.
Definition nl : string := String "010" EmptyString.

(** ["%d"] *)
Definition sprintf_d (z : Z) : string := DecimalString.NilZero.string_of_int (Z.to_int z).

(** ["%+v"] of an [[]int]: the elements between brackets, a space apart. *)
Definition sprintf_v (nums : list Z) : string :=
  "[" +:+ String.concat " " (sprintf_d <$> nums) +:+ "]".

(** [l[n]] on a slice, with the bounds check of the runtime. *)
Definition index (l : list Z) (n : nat) : res Z :=
  match l !! n with
  | Some x => Ok x
  | None =>
      Panic ("runtime error: index out of range [" +:+ sprintf_d (Z.of_nat n)
             +:+ "] with length " +:+ sprintf_d (Z.of_nat (List.length l)))
  end.

(** A [range] over a Go map: every entry once, in any order. *)
Definition Range {V} (m : gmap string V) (kvs : list (string * V)) : Prop :=
  kvs ≡ₚ map_to_list m.

(** [append(m[k], n)] stored back under [k]; a missing key reads as the
    nil slice. *)
Definition appendAt (m : gmap string (list Z)) (k : string) (n : Z) : gmap string (list Z) :=
  <[k := default [] (m !! k) ++ [n]]> m.

(** ** Source reader *)

(** The scan loop of [collectLines]: [lineNum] is the counter before the
    line is read, the result the records sent on the channel, in
    order. *)
Fixpoint scanLoop (fileName : string) (lineNum : Z) (input : list string) : list rawLineData :=
  match input with
  | [] => []
  | inputText :: input' =>
      let lineNum := wrap (lineNum + 1) in
      RawLineData (getKey inputText) fileName lineNum :: scanLoop fileName lineNum input'
  end.

Definition openError (fileName : string) : string :=
  "Error in opening " +:+ fileName +:+ ", discarding it" +:+ nl.

(** [collectLines]: what the reader prints and what it sends. *)
Definition collectLines (w : world) (fileName : string) : list string * list rawLineData :=
  if String.eqb fileName "stdin" then ([], scanLoop fileName 0 (os_Stdin w))
  else
    match os_Open w fileName with
    | None => ([openError fileName], [])
    | Some input => ([], scanLoop fileName 0 input)
    end.

(** ** Channel

    Every reader sends on the one unbuffered channel and the consumer
    receives until the channel is closed, which happens after all readers
    are done: the consumer sees an interleaving of the readers' streams,
    each in its own order. *)
Inductive Pick {A} : list (list A) -> A -> list (list A) -> Prop :=
| pick_here x s ss : Pick ((x :: s) :: ss) x (s :: ss)
| pick_later s ss x ss' : Pick ss x ss' -> Pick (s :: ss) x (s :: ss').

Inductive Interleaving {A} : list (list A) -> list A -> Prop :=
| il_closed ss : Forall (fun s => s = []) ss -> Interleaving ss []
| il_recv ss x ss' arr : Pick ss x ss' -> Interleaving ss' arr -> Interleaving ss (x :: arr).

Definition Arrival (w : world) (files : list string) (arr : list rawLineData) : Prop :=
  Interleaving ((fun f => snd (collectLines w f)) <$> files) arr.

(** The standard input is named at most once.  Each reader is given here
    what [collectLines] reads when it scans alone; that is what the code
    does for every named file, and for the standard input as long as one
    reader scans it.  Readers that scan the standard input together get
    its bytes in shares that change from run to run, which [Arrival] does
    not describe: a property of what those readers receive holds under
    [StdinOnce]. *)
Definition StdinOnce (files : list string) : Prop :=
  (List.length (filter (fun f => f = "stdin") files) <= 1)%nat.

(** ** Aggregator *)

(** The body of [for rawLineDatum := range lines]. *)
Definition consume (counts : gmap string lineData) (rawLineDatum : rawLineData)
  : gmap string lineData :=
  let lineDatum :=
    match counts !! lineText rawLineDatum with
    | None => LineData {[ fileName rawLineDatum := [lineNum rawLineDatum] ]} 0
    | Some lineDatum =>
        LineData (appendAt (locations lineDatum) (fileName rawLineDatum) (lineNum rawLineDatum))
                 (count lineDatum)
    end in
  <[ lineText rawLineDatum := LineData (locations lineDatum) (wrap (count lineDatum + 1)) ]> counts.

Definition aggregate (arr : list rawLineData) : gmap string lineData :=
  fold_left consume arr ∅.

(** The order in which the report visits the entries and, inside each,
    the per-file lists. *)
Abbreviation visit := (list (string * lineData * list (string * list Z))).

Definition Visits (counts : gmap string lineData) (v : visit) : Prop :=
  Range counts (fst <$> v) /\
  Forall (fun e => Range (locations (snd (fst e))) (snd e)) v.

Definition printLocation (e : string * list Z) : string :=
  tab +:+ "FileName: " +:+ fst e +:+ ", lineNums: " +:+ sprintf_v (snd e) +:+ nl.

Definition printEntry (threshold : Z) (e : string * lineData * list (string * list Z))
  : list string :=
  let '(line, lineDatum, locs) := e in
  if count lineDatum >? threshold then
    (sprintf_d (count lineDatum) +:+ tab +:+ line +:+ nl)
    :: (printLocation <$> locs)
  else [].

(** The report of [DupDetectFiles], lines 116 to 124. *)
Definition report (threshold : Z) (v : visit) : list string :=
  ("----" +:+ nl) :: flat_map (printEntry threshold) v.

(** The entries the report prints. *)
Definition emitted (threshold : Z) (v : visit) : list (string * lineData) :=
  fst <$> filter (fun e => threshold < count (snd (fst e))) v.

(** ** Sorted fast path *)

Record sortedState := SortedState {
  counts : gmap string lineData;
  i : Z;
  prevInputText : string
}.

(** Modelled from the spec: the declaration of [prevLineDatum] is missing
    from ex3.go, where lines 159 and 160 use the identifier and nothing
    declares it.  By section 4.4 "the previous run's entry (if any) is
    finalized by recording the previous line's number as its end-of-run
    boundary", so it is the entry [counts[prevInputText]]; a key that is
    absent reads as the zero [lineData], whose nil map cannot be assigned
    to. *)
Definition prevLineDatum (counts : gmap string lineData) (prevInputText : string)
  : res lineData :=
  match counts !! prevInputText with
  | Some d => Ok d
  | None => Panic "assignment to entry in nil map"
  end.

(** The body of the scan loop of [DupDetectSorted], lines 153 to 166. *)
Definition sortedStep (fileName : string) (st : sortedState) (inputText : string)
  : res sortedState :=
  match counts st !! inputText with
  | None =>
      let lineDatum := LineData {[ fileName := [i st] ]} 0 in
      counts' <-
        (if String.eqb (prevInputText st) EmptyString then Ok (counts st)
         else
           p <- prevLineDatum (counts st) (prevInputText st) ;;
           Ok (<[ prevInputText st :=
                    LineData (appendAt (locations p) fileName (wrap (i st - 1))) (count p) ]>
                 (counts st))) ;;
      Ok (SortedState
            (<[ inputText := LineData (locations lineDatum) (wrap (count lineDatum + 1)) ]> counts')
            (wrap (i st + 1)) inputText)
  | Some lineDatum =>
      Ok (SortedState
            (<[ inputText := LineData (locations lineDatum) (wrap (count lineDatum + 1)) ]>
               (counts st))
            (wrap (i st + 1)) (prevInputText st))
  end.

Fixpoint sortedLoop (fileName : string) (st : sortedState) (input : list string)
  : res sortedState :=
  match input with
  | [] => Ok st
  | inputText :: input' =>
      st' <- sortedStep fileName st inputText ;;
      sortedLoop fileName st' input'
  end.

Definition sortedInit : sortedState := SortedState ∅ 1 EmptyString.

(** One [Printf] of the report of [DupDetectSorted], line 171. *)
Definition printSorted (fileName line : string) (lineDatum : lineData) : res string :=
  let locs := default [] (locations lineDatum !! fileName) in
  start <- index locs 0 ;;
  end_ <- index locs 1 ;;
  Ok (sprintf_d (count lineDatum) +:+ tab +:+ line +:+ tab +:+ "start: " +:+ sprintf_d start
      +:+ ", end: " +:+ sprintf_d end_ +:+ nl).

(** The report loop of [DupDetectSorted], lines 169 to 173, over the
    entries in the order [kvs]. *)
Fixpoint sortedReport (threshold : Z) (fileName : string) (kvs : list (string * lineData))
  : run :=
  match kvs with
  | [] => Run [] Returned
  | (line, lineDatum) :: kvs' =>
      if count lineDatum >? threshold then
        match printSorted fileName line lineDatum with
        | Ok text =>
            let r := sortedReport threshold fileName kvs' in
            Run (text :: stdout r) (result r)
        | Panic msg => Run [] (Panicked msg)
        end
      else sortedReport threshold fileName kvs'
  end.

Inductive DupDetectSorted (w : world) (threshold : Z) (fileName : string) : run -> Prop :=
| sorted_open_error :
    os_Open w fileName = None ->
    DupDetectSorted w threshold fileName (Run [openError fileName] Returned)
| sorted_loop_panic input msg :
    os_Open w fileName = Some input ->
    sortedLoop fileName sortedInit input = Panic msg ->
    DupDetectSorted w threshold fileName (Run [] (Panicked msg))
| sorted_report input st kvs :
    os_Open w fileName = Some input ->
    sortedLoop fileName sortedInit input = Ok st ->
    Range (counts st) kvs ->
    DupDetectSorted w threshold fileName
      (Run (nl :: stdout (sortedReport threshold fileName kvs))
           (result (sortedReport threshold fileName kvs))).

(** ** Standard input only *)

(** The body of the scan loop of [DupDetect]; the state is the map and
    the line counter [i]. *)
Definition stdinStep (st : gmap string lineData * Z) (inputText : string)
  : gmap string lineData * Z :=
  let '(counts, i) := st in
  let lineDatum :=
    match counts !! inputText with
    | None => LineData {[ "stdin" := [i] ]} 0
    | Some lineDatum => LineData (appendAt (locations lineDatum) "stdin" i) (count lineDatum)
    end in
  (<[ inputText := LineData (locations lineDatum) (wrap (count lineDatum + 1)) ]> counts,
   wrap (i + 1)).

Definition printStdin (threshold : Z) (e : string * lineData) : list string :=
  if count (snd e) >? threshold then
    [sprintf_d (count (snd e)) +:+ tab +:+ fst e +:+ tab
     +:+ sprintf_v (default [] (locations (snd e) !! "stdin")) +:+ nl]
  else [].

Inductive DupDetect (w : world) (threshold : Z) : run -> Prop :=
| stdin_report kvs :
    Range (fst (fold_left stdinStep (os_Stdin w) (∅, 1))) kvs ->
    DupDetect w threshold (Run (nl :: flat_map (printStdin threshold) kvs) Returned).

(** ** Entry point *)

Inductive DupDetectFiles (w : world) (threshold : Z) (sorted : bool) (files : list string)
  : run -> Prop :=
| files_none r :
    files = [] ->
    DupDetect w threshold r ->
    DupDetectFiles w threshold sorted files r
| files_sorted f files' r :
    files = f :: files' ->
    sorted = true ->
    DupDetectSorted w threshold f r ->
    DupDetectFiles w threshold sorted files r
| files_many errs arr v :
    files <> [] ->
    sorted = false ->
    errs ≡ₚ concat ((fun f => fst (collectLines w f)) <$> files) ->
    Arrival w files arr ->
    Visits (aggregate arr) v ->
    DupDetectFiles w threshold sorted files (Run (errs ++ report threshold v) Returned).

(** The lines a reader scans for [fileName]; none when the open fails. *)
Definition scanned (w : world) (fileName : string) : list string :=
  if String.eqb fileName "stdin" then os_Stdin w else default [] (os_Open w fileName).

(** The records a reader sends. *)
Definition sent (w : world) (fileName : string) : list rawLineData :=
  snd (collectLines w fileName).

(** ** What a map built by the aggregator has to hold *)

Definition keyCount (k : string) (arr : list rawLineData) : nat :=
  List.length (filter (fun r => lineText r = k) arr).

Definition linesOf (k f : string) (arr : list rawLineData) : list Z :=
  lineNum <$> filter (fun r => lineText r = k /\ fileName r = f) arr.

Definition numLocations (d : lineData) : nat :=
  sum_list_with (fun e => List.length (snd e)) (map_to_list (locations d)).

Definition someIfAny {A} (l : list A) : option (list A) :=
  match l with
  | [] => None
  | _ => Some l
  end.

(** [m] is the map the consumer holds once it has received [done]. *)
Definition Tracks (done : list rawLineData) (m : gmap string lineData) : Prop :=
  forall k,
    match m !! k with
    | None => keyCount k done = 0%nat
    | Some d =>
        keyCount k done <> 0%nat /\
        count d = wrap (Z.of_nat (keyCount k done)) /\
        numLocations d = keyCount k done /\
        forall f, locations d !! f = someIfAny (linesOf k f done)
    end.


(** One order the report can follow: that of [map_to_list]. *)
Definition anyVisit (m : gmap string lineData) : visit :=
  (fun e => (e, map_to_list (locations (snd e)))) <$> map_to_list m.

(** ** Sample inputs *)

Fixpoint lookupFile (disk : list (string * list string)) (name : string)
  : option (list string) :=
  match disk with
  | [] => None
  | (n, input) :: disk' => if String.eqb n name then Some input else lookupFile disk' name
  end.

(** A few small files; any other name fails to open. *)
Definition sample : world :=
  World (lookupFile
           [ ("A", ["x"; "y"; "x"]);
             ("B", ["x"]);
             ("present.txt", ["p"; "q"; "p"]);
             ("one", ["x"]);
             ("twice", ["x"; "x"]);
             ("long", ["0123456789abcdef0123456789abcdef"]);
             ("sorteda", ["a"; "a"; "a"; "b"; "b"; "c"]);
             ("aa", ["a"; "a"]);
             ("blank", [EmptyString; EmptyString; "b"; "b"]) ])
        [].

(** ** What the sorted loop relies on *)

(** Either no run is open or the open run has its entry. *)
Definition Safe (st : sortedState) : Prop :=
  prevInputText st = EmptyString \/ is_Some (counts st !! prevInputText st).

(** The lines of the sorted report when none of its accesses is out of
    range. *)
Definition sortedTexts (threshold : Z) (fileName : string) (kvs : list (string * lineData))
  : list string :=
  flat_map
    (fun e =>
       if count (snd e) >? threshold then
         match printSorted fileName (fst e) (snd e) with
         | Ok text => [text]
         | Panic _ => []
         end
       else [])
    kvs.

(** ** The original counter (ex3.go, [OriginalDupDetect]) *)

(** [counts[input.Text()]++] on a [map[string]int]: a missing key reads
    as 0. *)
Definition originalStep (counts : gmap string Z) (inputText : string) : gmap string Z :=
  <[ inputText := wrap (default 0 (counts !! inputText) + 1) ]> counts.

Definition originalCounts (input : list string) : gmap string Z :=
  fold_left originalStep input ∅.

Definition printOriginal (e : string * Z) : list string :=
  if snd e >? 1 then [sprintf_d (snd e) +:+ tab +:+ fst e +:+ nl] else [].

Inductive OriginalDupDetect (w : world) : run -> Prop :=
| original_report kvs :
    Range (originalCounts (os_Stdin w)) kvs ->
    OriginalDupDetect w (Run (flat_map printOriginal kvs) Returned).

(** The mapping [DupDetect] holds when its scan loop ends. *)
Definition stdinCounts (input : list string) : gmap string lineData :=
  fst (fold_left stdinStep input (∅, 1)).

(** ** Where a line occurs *)

(** The numbers of the lines of [input] equal to [x], the first line
    having number [n]. *)
Fixpoint positionsFrom (n : Z) (x : string) (input : list string) : list Z :=
  match input with
  | [] => []
  | y :: input' =>
      (if decide (y = x) then [n] else []) ++ positionsFrom (n + 1) x input'
  end.

Definition occurrences (x : string) (input : list string) : nat :=
  List.length (filter (fun y => y = x) input).

(** ** Argument separator (ex2.go) *)

(** [strings.Join(elems, sep)] of the standard library: nothing for no
    element, the element itself for one, and otherwise the first element
    followed by [sep] and the next element, in turn. *)
Definition strings_Join (elems : list string) (sep : string) : string :=
  match elems with
  | [] => EmptyString
  | [s] => s
  | s :: elems' => fold_left (fun b s' => b +:+ sep +:+ s') elems' s
  end.

Definition stringJoin (strs : list string) : string := strings_Join strs " ".

(** The loop of [loopConcat]: [i] is the index of the head of [strs] in
    the slice, [n] the length of the slice. *)
Fixpoint loopConcat_loop (n i : Z) (out : string) (strs : list string) : string :=
  match strs with
  | [] => out
  | s :: strs' =>
      let out := out +:+ s in
      let out := if i <? n - 1 then out +:+ " " else out in
      loopConcat_loop n (i + 1) out strs'
  end.

Definition loopConcat (strs : list string) : string :=
  loopConcat_loop (Z.of_nat (List.length strs)) 0 EmptyString strs.

(** [fmt.Sprint(s)] of one string operand is the string. *)
Definition fmt_Sprint (s : string) : string := s.

Definition fmtSprint (strs : list string) : string :=
  match strs with
  | [] => EmptyString
  | s :: strs' => fold_left (fun result s' => result +:+ (" " +:+ fmt_Sprint s')) strs' (fmt_Sprint s)
  end.
(** * Properties *)

(** ** Machine integers *)

Lemma wrap_small z : int_ok z -> wrap z = z.
Proof.
  unfold wrap, int_ok. intros Hz.
  rewrite Z.mod_small by lia. lia.
Qed.

Lemma wrap_add_l a b : wrap (wrap a + b) = wrap (a + b).
Proof.
  unfold wrap.
  replace ((a + 2 ^ 63) mod 2 ^ 64 - 2 ^ 63 + b + 2 ^ 63)
    with ((a + 2 ^ 63) mod 2 ^ 64 + b) by lia.
  rewrite Zplus_mod_idemp_l. f_equal. f_equal. lia.
Qed.

Lemma wrap_nat (n : nat) : Z.of_nat n < 2 ^ 63 -> wrap (Z.of_nat n) = Z.of_nat n.
Proof. intros Hn. apply wrap_small. unfold int_ok. lia. Qed.

(** ** Key normaliser *)

Lemma sprintf_x_length b : String.length (sprintf_x b) = (2 * List.length b)%nat.
Proof. induction b as [|x b IH]; simpl; [reflexivity | rewrite IH; lia]. Qed.

Lemma Sum256_length data : List.length (sha256.Sum256 data) = 32%nat.
Proof. unfold sha256.Sum256. rewrite !length_app. reflexivity. Qed.

Lemma hashString_length s : String.length (hashString s) = 64%nat.
Proof. unfold hashString. rewrite sprintf_x_length, Sum256_length. reflexivity. Qed.

(** C3. [getKey] returns a line of fewer than 32 bytes unchanged; a line
    of 32 bytes or more is replaced by the lower-case hexadecimal text of
    the SHA-256 digest of its bytes, which always has 64 characters. *)
Theorem getKey_contract (s : string) :
  (len s < 32 -> getKey s = s) /\
  (32 <= len s ->
     getKey s = sprintf_x (sha256.Sum256 (bytes_of_string s)) /\
     String.length (getKey s) = 64%nat).
Proof.
  unfold getKey. split; intros Hlen.
  - destruct (Z.ltb_spec (len s) 32) as [_|Hge]; [reflexivity | lia].
  - destruct (Z.ltb_spec (len s) 32) as [Hlt|_]; [lia |].
    split; [reflexivity | apply hashString_length].
Qed.

(** The boundary of C3: 31 bytes are kept, 32 and 33 bytes are hashed. *)
Lemma getKey_contract_boundary :
  (len "0123456789abcdef0123456789abcde" < 32 /\
   getKey "0123456789abcdef0123456789abcde" = "0123456789abcdef0123456789abcde") /\
  (32 <= len "0123456789abcdef0123456789abcdef" /\
   getKey "0123456789abcdef0123456789abcdef"
   = "3eb1bd439947eb762998e566ccc2e099c791118b2f40579cc4f7da2b5061b7f9") /\
  (32 <= len "0123456789abcdef0123456789abcdefg" /\
   getKey "0123456789abcdef0123456789abcdefg"
   = "098e93cec2939f0514b168227acef4b42534d23edcd17d9ed267b3f7bce2bcc0").
Proof.
  split; [|split].
  - split; [vm_compute; reflexivity|].
    apply (proj1 (getKey_contract "0123456789abcdef0123456789abcde")).
    vm_compute; reflexivity.
  - split; [vm_compute; discriminate|].
    rewrite (proj1 (proj2 (getKey_contract "0123456789abcdef0123456789abcdef")
                      ltac:(vm_compute; discriminate))).
    vm_compute. reflexivity.
  - split; [vm_compute; discriminate|].
    rewrite (proj1 (proj2 (getKey_contract "0123456789abcdef0123456789abcdefg")
                      ltac:(vm_compute; discriminate))).
    vm_compute. reflexivity.
Defined.
Example sum256_empty :
  hashString EmptyString = "e3b0c44298fc1c149afbf4c8996fb92427ae41e4649b934ca495991b7852b855".
Proof. vm_compute. reflexivity. Qed.

Example sum256_abc :
  hashString "abc" = "ba7816bf8f01cfea414140de5dae2223b00361a396177a9cb410ff61f20015ad".
Proof. vm_compute. reflexivity. Qed.

Example sum256_two_blocks :
  hashString "abcdbcdecdefdefgefghfghighijhijkijkljklmklmnlmnomnopnopq"
  = "248d6a61d20638b8e5c026930c3e6039a33ce45964ff2167f6ecedd419db06c1".
Proof. vm_compute. reflexivity. Qed.

(** ** Counting records *)

Lemma keyCount_snoc k done r :
  keyCount k (done ++ [r]) =
  (keyCount k done + if decide (lineText r = k) then 1 else 0)%nat.
Proof.
  unfold keyCount. rewrite filter_app, length_app, filter_cons, filter_nil.
  destruct (decide (lineText r = k)); reflexivity.
Qed.

Lemma linesOf_snoc k f done r :
  linesOf k f (done ++ [r]) =
  linesOf k f done ++
    (if decide (lineText r = k /\ fileName r = f) then [lineNum r] else []).
Proof.
  unfold linesOf. rewrite filter_app, fmap_app, filter_cons, filter_nil.
  destruct (decide (lineText r = k /\ fileName r = f)); reflexivity.
Qed.

Lemma linesOf_none k f arr : keyCount k arr = 0%nat -> linesOf k f arr = [].
Proof.
  unfold keyCount, linesOf. induction arr as [|r arr IH]; [reflexivity|].
  rewrite !filter_cons.
  destruct (decide (lineText r = k)) as [Hk|Hk]; simpl; [discriminate|].
  intros H0. rewrite decide_False by (intros [? _]; contradiction). auto.
Qed.

Lemma someIfAny_snoc {A} (l : list A) x : someIfAny (l ++ [x]) = Some (l ++ [x]).
Proof. destruct l; reflexivity. Qed.

Lemma default_someIfAny {A} (l : list A) : default [] (someIfAny l) = l.
Proof. destruct l; reflexivity. Qed.

Lemma someIfAny_Some {A} (l l' : list A) : someIfAny l = Some l' -> l' = l /\ l <> [].
Proof. destruct l; simpl; [discriminate|]. intros [= <-]. split; [reflexivity | discriminate]. Qed.

(** ** The per-file lists of one entry *)

Lemma sum_lengths_appendAt (m : gmap string (list Z)) f n :
  sum_list_with (fun e => List.length (snd e)) (map_to_list (appendAt m f n))
  = S (sum_list_with (fun e => List.length (snd e)) (map_to_list m)).
Proof.
  unfold appendAt. destruct (m !! f) as [l|] eqn:Hf; simpl.
  - rewrite <- (insert_delete_eq m f).
    rewrite map_to_list_insert by apply lookup_delete_eq.
    rewrite <- (map_to_list_delete m f l Hf).
    simpl. rewrite length_app. simpl. lia.
  - rewrite map_to_list_insert by exact Hf. reflexivity.
Qed.

Lemma numLocations_new f n c : numLocations (LineData {[ f := [n] ]} c) = 1%nat.
Proof. unfold numLocations. simpl. rewrite map_to_list_singleton. reflexivity. Qed.

(** ** The consumer loop keeps [Tracks] *)

Lemma Tracks_empty : Tracks [] ∅.
Proof. intros k. rewrite lookup_empty. reflexivity. Qed.

Lemma Tracks_consume done m r :
  Tracks done m -> Tracks (done ++ [r]) (consume m r).
Proof.
  intros Hm k. unfold consume.
  rewrite keyCount_snoc.
  destruct (decide (lineText r = k)) as [<-|Hne].
  - rewrite lookup_insert_eq. specialize (Hm (lineText r)).
    destruct (m !! lineText r) as [d|]; simpl.
    + destruct Hm as (Hpos & Hc & Hn & Hl).
      split; [lia|]. split; [|split].
      * rewrite Hc, wrap_add_l. f_equal. lia.
      * unfold numLocations in *. simpl. rewrite sum_lengths_appendAt. lia.
      * intros f. rewrite linesOf_snoc. unfold appendAt.
        destruct (decide (fileName r = f)) as [<-|Hf].
        -- rewrite lookup_insert_eq, decide_True by auto.
           rewrite someIfAny_snoc, Hl, default_someIfAny. reflexivity.
        -- rewrite lookup_insert_ne by exact Hf.
           rewrite decide_False by (intros [_ ?]; contradiction).
           rewrite app_nil_r. apply Hl.
    + rewrite Hm. split; [lia|]. split; [reflexivity|]. split.
      * apply numLocations_new.
      * intros f. rewrite linesOf_snoc, (linesOf_none _ _ _ Hm). simpl.
        destruct (decide (fileName r = f)) as [<-|Hf].
        -- rewrite lookup_singleton_eq, decide_True by auto. reflexivity.
        -- rewrite lookup_singleton_ne by exact Hf.
           rewrite decide_False by (intros [_ ?]; contradiction). reflexivity.
  - rewrite lookup_insert_ne by exact Hne.
    specialize (Hm k). rewrite Nat.add_0_r.
    destruct (m !! k) as [d|]; [|exact Hm].
    destruct Hm as (Hpos & Hc & Hn & Hl).
    repeat split; try assumption.
    intros f. rewrite linesOf_snoc, decide_False by (intros [? _]; contradiction).
    rewrite app_nil_r. apply Hl.
Qed.

Lemma Tracks_fold rest : forall done m,
  Tracks done m -> Tracks (done ++ rest) (fold_left consume rest m).
Proof.
  induction rest as [|r rest IH]; intros done m Hm; simpl.
  - rewrite app_nil_r. exact Hm.
  - rewrite (cons_middle r done rest), app_assoc.
    apply IH, Tracks_consume, Hm.
Qed.

Lemma Tracks_aggregate arr : Tracks arr (aggregate arr).
Proof. apply (Tracks_fold arr [] ∅ Tracks_empty). Qed.

(** Two maps that track the same counts and lists are the same map. *)
Lemma Tracks_ext arr1 arr2 m1 m2 :
  Tracks arr1 m1 -> Tracks arr2 m2 ->
  (forall k, keyCount k arr1 = keyCount k arr2) ->
  (forall k f, linesOf k f arr1 = linesOf k f arr2) ->
  m1 = m2.
Proof.
  intros H1 H2 Hc Hl. apply map_eq. intros k.
  specialize (H1 k). specialize (H2 k). rewrite <- Hc in H2.
  destruct (m1 !! k) as [[l1 c1]|], (m2 !! k) as [[l2 c2]|]; simpl in *;
    [| destruct H1 as [Hpos _]; contradiction
     | destruct H2 as [Hpos _]; contradiction
     | reflexivity].
  destruct H1 as (_ & Hc1 & _ & Hl1), H2 as (_ & Hc2 & _ & Hl2).
  f_equal. f_equal; [|congruence].
  apply map_eq. intros f. rewrite Hl1, Hl2, Hl. reflexivity.
Qed.

(** ** Interleavings *)

Section interleaving.
Context {A : Type}.
Implicit Types (ss : list (list A)) (arr s : list A) (x : A).

Lemma Pick_concat ss x ss' : Pick ss x ss' -> concat ss ≡ₚ x :: concat ss'.
Proof.
  induction 1 as [x s ss|s ss x ss' _ IH]; simpl; [reflexivity|].
  rewrite IH. symmetry. apply Permutation_middle.
Qed.

Lemma concat_all_nil ss : Forall (fun s => s = []) ss -> concat ss = [].
Proof. induction 1 as [|s ss -> _ IH]; simpl; auto. Qed.

Lemma Interleaving_perm ss arr : Interleaving ss arr -> arr ≡ₚ concat ss.
Proof.
  induction 1 as [ss Hnil|ss x ss' arr Hpick _ IH].
  - rewrite (concat_all_nil _ Hnil). reflexivity.
  - rewrite (Pick_concat _ _ _ Hpick), IH. reflexivity.
Qed.

Lemma Pick_not_nil ss x ss' : Pick ss x ss' -> ~ Forall (fun s => s = []) ss.
Proof.
  induction 1 as [x s ss|s ss x ss' _ IH]; intros Hnil.
  - apply Forall_cons in Hnil as [? _]. discriminate.
  - apply Forall_cons in Hnil as [_ ?]. auto.
Qed.

Lemma Interleaving_all_nil ss arr :
  Forall (fun s => s = []) ss -> Interleaving ss arr -> arr = [].
Proof.
  intros Hnil Hil. destruct Hil as [|ss x ss' arr Hpick _]; [reflexivity|].
  destruct (Pick_not_nil _ _ _ Hpick Hnil).
Qed.

Section filter.
Context (P : A -> Prop) `{!forall x, Decision (P x)}.

Lemma Pick_filter ss x ss' :
  Pick ss x ss' ->
  if decide (P x) then Pick (filter P <$> ss) x (filter P <$> ss')
  else filter P <$> ss = filter P <$> ss'.
Proof.
  induction 1 as [x s ss|s ss x ss' _ IH].
  - rewrite !fmap_cons, filter_cons.
    destruct (decide (P x)); [constructor | reflexivity].
  - rewrite !fmap_cons.
    destruct (decide (P x)); [constructor; exact IH | f_equal; exact IH].
Qed.

Lemma Interleaving_filter ss arr :
  Interleaving ss arr -> Interleaving (filter P <$> ss) (filter P arr).
Proof.
  induction 1 as [ss Hnil|ss x ss' arr Hpick _ IH].
  - constructor. apply Forall_fmap.
    eapply Forall_impl; [exact Hnil|]. intros s ->. reflexivity.
  - pose proof (Pick_filter _ _ _ Hpick) as Hf. rewrite filter_cons.
    destruct (decide (P x)).
    + econstructor; [exact Hf | exact IH].
    + rewrite Hf. exact IH.
Qed.
End filter.

(** Only one stream has anything to send. *)
Lemma Pick_one pre s post x ss' :
  Forall (fun s => s = []) pre -> Forall (fun s => s = []) post ->
  Pick (pre ++ s :: post) x ss' ->
  exists s', s = x :: s' /\ ss' = pre ++ s' :: post.
Proof.
  intros Hpre Hpost. revert ss'.
  induction Hpre as [|p pre -> _ IH]; simpl; intros ss' Hpick.
  - inversion Hpick as [x' s' ss|s0 ss x' ss'' Hlater]; subst.
    + eauto.
    + destruct (Pick_not_nil _ _ _ Hlater Hpost).
  - inversion Hpick as [|s0 ss x' ss'' Hlater]; subst.
    destruct (IH _ Hlater) as (s' & -> & ->). eauto.
Qed.

Lemma Interleaving_one pre post arr : forall s,
  Forall (fun s => s = []) pre -> Forall (fun s => s = []) post ->
  Interleaving (pre ++ s :: post) arr -> arr = s.
Proof.
  induction arr as [|x arr IH]; intros s Hpre Hpost Hil.
  - inversion Hil as [ss Hnil|]; subst.
    apply Forall_app in Hnil as [_ Hnil].
    apply Forall_cons in Hnil as [-> _]. reflexivity.
  - inversion Hil as [|ss x' ss' arr' Hpick Hrest]; subst.
    destruct (Pick_one _ _ _ _ _ Hpre Hpost Hpick) as (s' & -> & ->).
    f_equal. apply IH; assumption.
Qed.

(** A stream that sends nothing can be left out. *)
Lemma Pick_skip pre post x ss' :
  Pick (pre ++ [] :: post) x ss' ->
  exists pre' post', ss' = pre' ++ [] :: post' /\ Pick (pre ++ post) x (pre' ++ post').
Proof.
  revert ss'. induction pre as [|p pre IH]; simpl; intros ss' Hpick.
  - inversion Hpick as [|s0 ss x' ss'' Hlater]; subst.
    exists [], ss''. split; [reflexivity | exact Hlater].
  - inversion Hpick as [x' s' ss|s0 ss x' ss'' Hlater]; subst.
    + exists (s' :: pre), post. split; [reflexivity | constructor].
    + destruct (IH _ Hlater) as (pre' & post' & -> & Hp).
      exists (p :: pre'), post'. split; [reflexivity | constructor; exact Hp].
Qed.

Lemma Pick_unskip pre post x ss' :
  Pick (pre ++ post) x ss' ->
  exists pre' post', ss' = pre' ++ post' /\ Pick (pre ++ [] :: post) x (pre' ++ [] :: post').
Proof.
  revert ss'. induction pre as [|p pre IH]; simpl; intros ss' Hpick.
  - exists [], ss'. split; [reflexivity | constructor; exact Hpick].
  - inversion Hpick as [x' s' ss|s0 ss x' ss'' Hlater]; subst.
    + exists (s' :: pre), post. split; [reflexivity | constructor].
    + destruct (IH _ Hlater) as (pre' & post' & -> & Hp).
      exists (p :: pre'), post'. split; [reflexivity | constructor; exact Hp].
Qed.

Lemma Interleaving_skip arr : forall pre post,
  Interleaving (pre ++ [] :: post) arr <-> Interleaving (pre ++ post) arr.
Proof.
  induction arr as [|x arr IH]; intros pre post; split; intros Hil.
  - inversion Hil as [ss Hnil|]; subst. constructor.
    apply Forall_app in Hnil as [Hpre Hpost].
    apply Forall_cons in Hpost as [_ Hpost]. apply Forall_app. auto.
  - inversion Hil as [ss Hnil|]; subst. constructor.
    apply Forall_app in Hnil as [Hpre Hpost].
    apply Forall_app. auto.
  - inversion Hil as [|ss x' ss' arr' Hpick Hrest]; subst.
    destruct (Pick_skip _ _ _ _ Hpick) as (pre' & post' & -> & Hp).
    econstructor; [exact Hp | apply IH, Hrest].
  - inversion Hil as [|ss x' ss' arr' Hpick Hrest]; subst.
    destruct (Pick_unskip _ _ _ _ Hpick) as (pre' & post' & -> & Hp).
    econstructor; [exact Hp | apply IH, Hrest].
Qed.

(** The streams one after the other are one of the interleavings. *)
Lemma Interleaving_concat ss : Interleaving ss (concat ss).
Proof.
  induction ss as [|s ss IH]; simpl.
  - constructor. constructor.
  - induction s as [|x s IHs]; simpl.
    + apply (Interleaving_skip _ [] ss). exact IH.
    + econstructor; [constructor | exact IHs].
Qed.
End interleaving.

(** ** Source reader *)

Lemma sent_scanLoop w f : sent w f = scanLoop f 0 (scanned w f).
Proof.
  unfold sent, collectLines, scanned.
  destruct (String.eqb f "stdin"); [reflexivity|].
  destruct (os_Open w f); reflexivity.
Qed.

Lemma scanLoop_length f lines : forall n,
  List.length (scanLoop f n lines) = List.length lines.
Proof. induction lines as [|l lines IH]; intros n; simpl; [|rewrite IH]; reflexivity. Qed.

Lemma scanLoop_fileName f lines : forall n,
  Forall (fun r => fileName r = f) (scanLoop f n lines).
Proof. induction lines as [|l lines IH]; intros n; simpl; constructor; auto. Qed.

Lemma scanLoop_lineText f lines : forall n,
  lineText <$> scanLoop f n lines = getKey <$> lines.
Proof. induction lines as [|l lines IH]; intros n; simpl; [|rewrite IH]; reflexivity. Qed.

Lemma scanLoop_increasing (P : rawLineData -> Prop) `{!forall r, Decision (P r)} f lines :
  forall n, 0 <= n -> n + Z.of_nat (List.length lines) < 2 ^ 63 ->
  StronglySorted Z.lt (lineNum <$> filter P (scanLoop f n lines)) /\
  Forall (fun x => n < x) (lineNum <$> filter P (scanLoop f n lines)).
Proof.
  induction lines as [|l lines IH]; intros n Hn Hlen; simpl.
  - split; constructor.
  - rewrite wrap_small by (unfold int_ok; simpl in Hlen; lia).
    destruct (IH (n + 1)) as [Hs Hgt]; [lia | simpl in Hlen; lia |].
    assert (Forall (fun x => n < x) (lineNum <$> filter P (scanLoop f (n + 1) lines))) as Hgt'
      by (eapply Forall_impl; [exact Hgt | simpl; intros; lia]).
    rewrite filter_cons. destruct (decide (P _)); [|auto].
    rewrite fmap_cons. simpl. split; constructor; auto. lia.
Qed.

Lemma filter_none {A} (P : A -> Prop) `{!forall x, Decision (P x)} (l : list A) :
  Forall (fun x => ~ P x) l -> filter P l = [].
Proof.
  induction 1 as [|x l Hx _ IH]; [reflexivity|].
  rewrite filter_cons_False by exact Hx. exact IH.
Qed.

Lemma sent_other_file w k f g : g <> f ->
  filter (fun r => lineText r = k /\ fileName r = f) (sent w g) = [].
Proof.
  intros Hne. apply filter_none. rewrite sent_scanLoop.
  eapply Forall_impl; [apply scanLoop_fileName|].
  simpl. intros r Hr [_ Hf]. congruence.
Qed.

(** With pairwise distinct names, the records of one key and one file
    arrive exactly as that file's reader sent them. *)
Lemma Arrival_one_file w files arr k f :
  NoDup files -> Arrival w files arr ->
  filter (fun r => lineText r = k /\ fileName r = f) arr =
  if decide (f ∈ files)
  then filter (fun r => lineText r = k /\ fileName r = f) (sent w f)
  else [].
Proof.
  intros Hnd Harr. unfold Arrival in Harr.
  apply (Interleaving_filter (fun r => lineText r = k /\ fileName r = f)) in Harr.
  rewrite <- list_fmap_compose in Harr.
  destruct (decide (f ∈ files)) as [Hin|Hout].
  - apply list_elem_of_split in Hin as (pre & post & ->).
    apply NoDup_app in Hnd as (_ & Hpre & Hpost).
    apply NoDup_cons in Hpost as [Hpost _].
    rewrite fmap_app, fmap_cons in Harr.
    eapply Interleaving_one; [| |exact Harr].
    + apply Forall_fmap, Forall_forall. intros g Hg. simpl.
      apply sent_other_file. intros ->. apply (Hpre f Hg). left.
    + apply Forall_fmap, Forall_forall. intros g Hg. simpl.
      apply sent_other_file. intros ->. contradiction.
  - eapply Interleaving_all_nil; [|exact Harr].
    apply Forall_fmap, Forall_forall. intros g Hg. simpl.
    apply sent_other_file. intros ->. contradiction.
Qed.

Lemma keyCount_perm k arr1 arr2 : arr1 ≡ₚ arr2 -> keyCount k arr1 = keyCount k arr2.
Proof. intros Hp. unfold keyCount. rewrite Hp. reflexivity. Qed.

Lemma linesOf_perm k f arr1 arr2 : arr1 ≡ₚ arr2 -> linesOf k f arr1 ≡ₚ linesOf k f arr2.
Proof. intros Hp. unfold linesOf. rewrite Hp. reflexivity. Qed.

(** Every record the readers send is received. *)
Lemma Arrival_perm w files arr :
  Arrival w files arr -> arr ≡ₚ concat (sent w <$> files).
Proof. apply Interleaving_perm. Qed.

(** C1. Whatever the sources and the order in which their records
    arrive, a key that some record carries has an entry, the entry's
    count is the number of records sent with that key, and the line
    numbers kept in its per-file lists are as many as the count. *)
Theorem record_conservation (w : world) (files : list string) (arr : list rawLineData)
    (k : string) :
  Arrival w files arr ->
  Z.of_nat (List.length arr) < 2 ^ 63 ->
  (keyCount k (concat (sent w <$> files)) <> 0%nat -> is_Some (aggregate arr !! k)) /\
  (forall d, aggregate arr !! k = Some d ->
     count d = Z.of_nat (keyCount k (concat (sent w <$> files))) /\
     Z.of_nat (numLocations d) = count d).
Proof.
  intros Harr Hlen.
  rewrite <- (keyCount_perm k _ _ (Arrival_perm _ _ _ Harr)).
  pose proof (Tracks_aggregate arr k) as Hk.
  assert (Z.of_nat (keyCount k arr) < 2 ^ 63) as Hsmall.
  { unfold keyCount. pose proof (length_filter (fun r => lineText r = k) arr). lia. }
  split.
  - intros Hpos. destruct (aggregate arr !! k); [eauto | contradiction].
  - intros d Hd. rewrite Hd in Hk. destruct Hk as (_ & Hc & Hn & _).
    rewrite Hc, Hn, wrap_nat by exact Hsmall. auto.
Qed.

(** The scenario of two sources A = x, y, x and B = x, with B's record
    arriving between A's. *)
Lemma Arrival_sample_AB :
  Arrival sample ["A"; "B"]
    [RawLineData "x" "A" 1; RawLineData "x" "B" 1;
     RawLineData "y" "A" 2; RawLineData "x" "A" 3].
Proof.
  vm_compute.
  eapply il_recv; [apply pick_here|].
  eapply il_recv; [apply pick_later, pick_here|].
  eapply il_recv; [apply pick_here|].
  eapply il_recv; [apply pick_here|].
  apply il_closed. repeat constructor.
Qed.

Lemma record_conservation_witness :
  let arr := [RawLineData "x" "A" 1; RawLineData "x" "B" 1;
              RawLineData "y" "A" 2; RawLineData "x" "A" 3] in
  Arrival sample ["A"; "B"] arr /\
  Z.of_nat (List.length arr) < 2 ^ 63 /\
  (keyCount "x" (concat (sent sample <$> ["A"; "B"])) <> 0%nat ->
   is_Some (aggregate arr !! "x")) /\
  (forall d, aggregate arr !! "x" = Some d ->
     count d = Z.of_nat (keyCount "x" (concat (sent sample <$> ["A"; "B"]))) /\
     Z.of_nat (numLocations d) = count d).
Proof.
  intros arr.
  assert (Arrival sample ["A"; "B"] arr) as Harr by exact Arrival_sample_AB.
  assert (Z.of_nat (List.length arr) < 2 ^ 63) as Hlen by (vm_compute; reflexivity).
  split; [exact Harr|]. split; [exact Hlen|].
  exact (record_conservation sample ["A"; "B"] arr "x" Harr Hlen).
Defined.

(** ** Report *)

Lemma Visits_anyVisit m : Visits m (anyVisit m).
Proof.
  unfold Visits, anyVisit, Range. split.
  - rewrite <- list_fmap_compose. simpl. rewrite list_fmap_id. reflexivity.
  - apply Forall_fmap, Forall_forall. intros e _. simpl. reflexivity.
Qed.

(** ** Open failure *)





(** ** Per-source order *)

(** C7, as stated, fails when a name is given twice: both readers number
    their lines from 1 and both lists end up under the one name. *)
Lemma repeated_source_not_increasing :
  let arr := [RawLineData "x" "one" 1; RawLineData "x" "one" 1] in
  Arrival sample ["one"; "one"] arr /\
  (aggregate arr !! "x") ≫= (fun d => locations d !! "one") = Some [1; 1] /\
  ~ StronglySorted Z.lt [1; 1].
Proof.
  intros arr. split; [|split].
  - vm_compute.
    eapply il_recv; [apply pick_here|].
    eapply il_recv; [apply pick_later, pick_here|].
    apply il_closed. repeat constructor.
  - vm_compute. reflexivity.
  - intros Hs. apply StronglySorted_inv in Hs as [_ Hlt].
    apply Forall_cons in Hlt as [Hlt _]. lia.
Qed.

(** C7 (amended). When the source names are pairwise distinct, every list
    of line numbers that an entry keeps for a file is the sub-sequence of
    that file's own records (in scan order) with the entry's key: it is
    strictly increasing and its numbers start from 1. *)
Theorem per_source_lines_increasing (w : world) (files : list string)
    (arr : list rawLineData) (k f : string) (d : lineData) (nums : list Z) :
  NoDup files ->
  (forall g, g ∈ files -> Z.of_nat (List.length (scanned w g)) < 2 ^ 63) ->
  Arrival w files arr ->
  aggregate arr !! k = Some d ->
  locations d !! f = Some nums ->
  f ∈ files /\
  nums = linesOf k f (sent w f) /\
  StronglySorted Z.lt nums /\
  Forall (fun n => 1 <= n) nums.
Proof.
  intros Hnd Hlen Harr Hd Hf.
  pose proof (Tracks_aggregate arr k) as Hk. rewrite Hd in Hk.
  destruct Hk as (_ & _ & _ & Hl). rewrite Hl in Hf.
  apply someIfAny_Some in Hf as [-> Hne].
  unfold linesOf in *. rewrite (Arrival_one_file w files arr k f Hnd Harr) in *.
  destruct (decide (f ∈ files)) as [Hin|Hout]; [|contradiction].
  split; [exact Hin|]. split; [reflexivity|].
  rewrite sent_scanLoop.
  destruct (scanLoop_increasing (fun r => lineText r = k /\ fileName r = f) f
              (scanned w f) 0) as [Hs Hpos]; [lia | specialize (Hlen f Hin); lia |].
  split; [exact Hs|].
  eapply Forall_impl; [exact Hpos|]. simpl. intros; lia.
Qed.

Lemma per_source_lines_increasing_witness :
  let arr := [RawLineData "x" "A" 1; RawLineData "x" "B" 1;
              RawLineData "y" "A" 2; RawLineData "x" "A" 3] in
  let d := LineData (<["A" := [1; 3]]> {["B" := [1]]}) 3 in
  Arrival sample ["A"; "B"] arr /\
  aggregate arr !! "x" = Some d /\
  locations d !! "A" = Some [1; 3] /\
  "A" ∈ ["A"; "B"] /\
  [1; 3] = linesOf "x" "A" (sent sample "A") /\
  StronglySorted Z.lt [1; 3] /\
  Forall (fun n => 1 <= n) [1; 3].
Proof.
  intros arr d.
  assert (NoDup ["A"; "B"]) as Hnd.
  { apply NoDup_cons. split; [|apply NoDup_singleton].
    intros Hin. apply list_elem_of_singleton in Hin. discriminate. }
  assert (forall g, g ∈ ["A"; "B"] -> Z.of_nat (List.length (scanned sample g)) < 2 ^ 63)
    as Hlen.
  { intros g Hg. apply elem_of_cons in Hg as [->|Hg]; [vm_compute; reflexivity|].
    apply list_elem_of_singleton in Hg as ->. vm_compute; reflexivity. }
  assert (Arrival sample ["A"; "B"] arr) as Harr by exact Arrival_sample_AB.
  assert (aggregate arr !! "x" = Some d) as Hd by (vm_compute; reflexivity).
  assert (locations d !! "A" = Some [1; 3]) as Hf by (vm_compute; reflexivity).
  split; [exact Harr|]. split; [exact Hd|]. split; [exact Hf|].
  exact (per_source_lines_increasing sample ["A"; "B"] arr "x" "A" d [1; 3]
           Hnd Hlen Harr Hd Hf).
Defined.

(** ** Repeated runs *)

Lemma Tracks_is_Some arr m k :
  Tracks arr m -> is_Some (m !! k) <-> keyCount k arr <> 0%nat.
Proof.
  intros Hm. specialize (Hm k). destruct (m !! k) as [d|].
  - destruct Hm as [Hpos _]. split; eauto.
  - split; [intros [d' [=]] | contradiction].
Qed.

Lemma someIfAny_is_Some {A} (l : list A) : is_Some (someIfAny l) <-> l <> [].
Proof.
  destruct l; simpl; split; try discriminate; eauto.
  - intros [l' [=]].
  - contradiction.
Qed.

Lemma Permutation_not_nil {A} (l1 l2 : list A) : l1 ≡ₚ l2 -> l1 <> [] -> l2 <> [].
Proof. intros Hp Hne ->. apply Permutation_nil_r in Hp. contradiction. Qed.

(** C9, as stated, fails when a name is given twice: two runs over the
    same file can keep its line numbers in different orders. *)
Lemma repeated_source_runs_differ :
  let a1 := RawLineData "x" "twice" 1 in
  let a2 := RawLineData "x" "twice" 2 in
  Arrival sample ["twice"; "twice"] [a1; a2; a1; a2] /\
  Arrival sample ["twice"; "twice"] [a1; a1; a2; a2] /\
  (aggregate [a1; a2; a1; a2] !! "x") ≫= (fun d => locations d !! "twice")
    = Some [1; 2; 1; 2] /\
  (aggregate [a1; a1; a2; a2] !! "x") ≫= (fun d => locations d !! "twice")
    = Some [1; 1; 2; 2] /\
  aggregate [a1; a2; a1; a2] <> aggregate [a1; a1; a2; a2].
Proof.
  intros a1 a2. split; [|split; [|split; [|split]]].
  - vm_compute.
    eapply il_recv; [apply pick_here|].
    eapply il_recv; [apply pick_here|].
    eapply il_recv; [apply pick_later, pick_here|].
    eapply il_recv; [apply pick_later, pick_here|].
    apply il_closed. repeat constructor.
  - vm_compute.
    eapply il_recv; [apply pick_here|].
    eapply il_recv; [apply pick_later, pick_here|].
    eapply il_recv; [apply pick_here|].
    eapply il_recv; [apply pick_later, pick_here|].
    apply il_closed. repeat constructor.
  - vm_compute. reflexivity.
  - vm_compute. reflexivity.
  - intros Heq.
    assert ((aggregate [a1; a2; a1; a2] !! "x") ≫= (fun d => locations d !! "twice")
            = (aggregate [a1; a1; a2; a2] !! "x") ≫= (fun d => locations d !! "twice"))
      as Hl by (rewrite Heq; reflexivity).
    vm_compute in Hl. discriminate.
Qed.

(** C9 (amended). Two runs over the same unchanged sources, the standard
    input being named at most once, hold the same keys with the same
    counts, and for every key the same files with the same line numbers
    up to their order; when the source names are pairwise distinct the
    two mappings are equal, lists included.  (Readers that share the
    standard input split it differently from run to run, which is why
    the lists that name it twice are left out.) *)
Theorem repeated_runs_agree (w : world) (files : list string)
    (arr1 arr2 : list rawLineData) :
  StdinOnce files ->
  Arrival w files arr1 ->
  Arrival w files arr2 ->
  dom (aggregate arr1) = dom (aggregate arr2) /\
  (forall k d1 d2,
     aggregate arr1 !! k = Some d1 -> aggregate arr2 !! k = Some d2 ->
     count d1 = count d2 /\
     dom (locations d1) = dom (locations d2) /\
     forall f, default [] (locations d1 !! f) ≡ₚ default [] (locations d2 !! f)) /\
  (NoDup files -> aggregate arr1 = aggregate arr2).
Proof.
  intros _ H1 H2.
  assert (arr1 ≡ₚ arr2) as Hp
    by (rewrite (Arrival_perm _ _ _ H1), (Arrival_perm _ _ _ H2); reflexivity).
  pose proof (Tracks_aggregate arr1) as T1.
  pose proof (Tracks_aggregate arr2) as T2.
  split; [|split].
  - apply set_eq. intros k. rewrite !elem_of_dom.
    rewrite (Tracks_is_Some _ _ k T1), (Tracks_is_Some _ _ k T2).
    rewrite (keyCount_perm k _ _ Hp). reflexivity.
  - intros k d1 d2 Hd1 Hd2.
    specialize (T1 k). specialize (T2 k). rewrite Hd1 in T1. rewrite Hd2 in T2.
    destruct T1 as (_ & Hc1 & _ & Hl1), T2 as (_ & Hc2 & _ & Hl2).
    split; [|split].
    + rewrite Hc1, Hc2, (keyCount_perm k _ _ Hp). reflexivity.
    + apply set_eq. intros f. rewrite !elem_of_dom, Hl1, Hl2, !someIfAny_is_Some.
      split; apply Permutation_not_nil; [|symmetry]; apply linesOf_perm, Hp.
    + intros f. rewrite Hl1, Hl2, !default_someIfAny. apply linesOf_perm, Hp.
  - intros Hnd. apply (Tracks_ext arr1 arr2); [exact T1 | exact T2 | |].
    + intros k. apply keyCount_perm, Hp.
    + intros k f. unfold linesOf.
      rewrite (Arrival_one_file w files arr1 k f Hnd H1).
      rewrite (Arrival_one_file w files arr2 k f Hnd H2). reflexivity.
Qed.

(** Two arrival orders of A = x, y, x and B = x. *)
Lemma repeated_runs_agree_witness :
  let arr1 := [RawLineData "x" "A" 1; RawLineData "x" "B" 1;
               RawLineData "y" "A" 2; RawLineData "x" "A" 3] in
  let arr2 := concat (sent sample <$> ["A"; "B"]) in
  StdinOnce ["A"; "B"] /\
  Arrival sample ["A"; "B"] arr1 /\
  Arrival sample ["A"; "B"] arr2 /\
  NoDup ["A"; "B"] /\
  aggregate arr1 = aggregate arr2.
Proof.
  intros arr1 arr2.
  assert (StdinOnce ["A"; "B"]) as Hs by (vm_compute; lia).
  assert (Arrival sample ["A"; "B"] arr1) as H1 by exact Arrival_sample_AB.
  assert (Arrival sample ["A"; "B"] arr2) as H2 by apply Interleaving_concat.
  assert (NoDup ["A"; "B"]) as Hnd.
  { apply NoDup_cons. split; [|apply NoDup_singleton].
    intros Hin. apply list_elem_of_singleton in Hin. discriminate. }
  split; [exact Hs|]. split; [exact H1|]. split; [exact H2|]. split; [exact Hnd|].
  exact (proj2 (proj2 (repeated_runs_agree sample ["A"; "B"] arr1 arr2 Hs H1 H2)) Hnd).
Defined.

(** ** Threshold *)

Lemma printEntry_qualifies threshold e :
  printEntry threshold e =
  if decide (threshold < count (snd (fst e)))
  then (sprintf_d (count (snd (fst e))) +:+ tab +:+ fst (fst e) +:+ nl)
       :: (printLocation <$> snd e)
  else [].
Proof.
  destruct e as [[line d] locs]. simpl.
  destruct (Z.gtb_spec (count d) threshold), (decide (threshold < count d));
    first [reflexivity | lia].
Qed.

Lemma report_emitted threshold v :
  report threshold v =
  ("----" +:+ nl)
  :: flat_map (fun e => (sprintf_d (count (snd (fst e))) +:+ tab +:+ fst (fst e) +:+ nl)
                        :: (printLocation <$> snd e))
       (filter (fun e => threshold < count (snd (fst e))) v).
Proof.
  unfold report. f_equal. induction v as [|e v IH]; [reflexivity|].
  rewrite filter_cons.
  change (flat_map (printEntry threshold) (e :: v))
    with (printEntry threshold e ++ flat_map (printEntry threshold) v).
  rewrite printEntry_qualifies, IH.
  destruct (decide (threshold < count (snd (fst e)))); reflexivity.
Qed.

Lemma emitted_iff threshold m v k d :
  Visits m v ->
  (k, d) ∈ emitted threshold v <-> m !! k = Some d /\ threshold < count d.
Proof.
  intros [Hr _]. unfold Range in Hr.
  rewrite <- elem_of_map_to_list, <- Hr. unfold emitted.
  rewrite !list_elem_of_fmap. split.
  - intros ([[k' d'] locs] & [= -> ->] & He).
    apply list_elem_of_filter in He as [Hq He].
    split; [exists (k', d', locs); auto | exact Hq].
  - intros [([[k' d'] locs] & [= -> ->] & He) Hq].
    exists (k', d', locs). split; [reflexivity|].
    apply list_elem_of_filter. auto.
Qed.

Lemma sortedReport_returned threshold f kvs :
  result (sortedReport threshold f kvs) = Returned ->
  Forall2 (fun e text => printSorted f (fst e) (snd e) = Ok text)
    (filter (fun e => threshold < count (snd e)) kvs)
    (stdout (sortedReport threshold f kvs)).
Proof.
  induction kvs as [|[line d] kvs IH]; simpl; [constructor|].
  rewrite filter_cons. simpl.
  destruct (Z.gtb_spec (count d) threshold), (decide (threshold < count d)); try lia.
  - destruct (printSorted f line d) as [text|msg] eqn:Hp; simpl; [|discriminate].
    intros Hr. constructor; [exact Hp | apply IH, Hr].
  - exact IH.
Qed.

(** ** Report text *)

Lemma keyCount_pos_elem k arr :
  keyCount k arr <> 0%nat -> exists r, r ∈ arr /\ lineText r = k.
Proof.
  unfold keyCount. destruct (filter (fun r => lineText r = k) arr) as [|r l] eqn:Hf.
  - contradiction.
  - intros _. exists r.
    assert (r ∈ filter (fun r => lineText r = k) arr) as Hr by (rewrite Hf; left).
    apply list_elem_of_filter in Hr as [Hk Hr]. auto.
Qed.

Lemma sent_lineText w f r :
  r ∈ sent w f -> exists text, text ∈ scanned w f /\ lineText r = getKey text.
Proof.
  intros Hr. rewrite sent_scanLoop in Hr.
  assert (lineText r ∈ lineText <$> scanLoop f 0 (scanned w f)) as Hk
    by (apply list_elem_of_fmap; eauto).
  rewrite scanLoop_lineText in Hk.
  apply list_elem_of_fmap in Hk as (text & -> & Htext). eauto.
Qed.

(** Every key of the mapping is [getKey] of a line that was read. *)
Lemma aggregate_key_origin w files arr k d :
  Arrival w files arr -> aggregate arr !! k = Some d ->
  exists f text, f ∈ files /\ text ∈ scanned w f /\ k = getKey text.
Proof.
  intros Harr Hd.
  assert (keyCount k arr <> 0%nat) as Hpos
    by (apply (Tracks_is_Some arr _ k (Tracks_aggregate arr)); eauto).
  apply keyCount_pos_elem in Hpos as (r & Hr & <-).
  rewrite (Arrival_perm _ _ _ Harr) in Hr.
  apply list_elem_of_In, in_concat in Hr as (s & Hs & Hr).
  apply list_elem_of_In in Hs, Hr.
  apply list_elem_of_fmap in Hs as (f & -> & Hf).
  destruct (sent_lineText _ _ _ Hr) as (text & Htext & Hk). eauto.
Qed.

(** C8, as stated, fails for a line of 32 bytes: the only report the run
    can print shows the digest where the claim has the line. *)
Lemma report_prints_digest_not_line :
  let text := "0123456789abcdef0123456789abcdef" in
  let key := "3eb1bd439947eb762998e566ccc2e099c791118b2f40579cc4f7da2b5061b7f9" in
  let out := Run ["----" +:+ nl; "1" +:+ tab +:+ key +:+ nl;
                  tab +:+ "FileName: long, lineNums: [1]" +:+ nl] Returned in
  os_Open sample "long" = Some [text] /\
  DupDetectFiles sample 0 false ["long"] out /\
  (forall r, DupDetectFiles sample 0 false ["long"] r -> r = out) /\
  key <> text.
Proof.
  intros text key out.
  assert ((fun f => snd (collectLines sample f)) <$> ["long"]
          = [[RawLineData key "long" 1]]) as Hsent by (vm_compute; reflexivity).
  assert (map_to_list (aggregate [RawLineData key "long" 1])
          = [(key, LineData {["long" := [1]]} 1)]) as Hm by (vm_compute; reflexivity).
  split; [reflexivity|]. split; [|split; [|discriminate]].
  - apply (files_many sample 0 false ["long"] [] [RawLineData key "long" 1]
             [(key, LineData {["long" := [1]]} 1, [("long", [1])])]).
    + discriminate.
    + reflexivity.
    + reflexivity.
    + unfold Arrival. rewrite Hsent.
      apply (Interleaving_concat [[RawLineData key "long" 1]]).
    + split.
      * unfold Range. rewrite Hm. reflexivity.
      * apply Forall_cons. split; [|constructor].
        unfold Range. simpl. rewrite map_to_list_singleton. reflexivity.
  - intros r Hr.
    inversion Hr as [r' Hnil _|f0 files' r' _ Hsorted _|errs arr v _ _ Herrs Harr Hv];
      subst; [discriminate | discriminate |].
    simpl in Herrs. apply Permutation_nil_r in Herrs as ->.
    unfold Arrival in Harr. rewrite Hsent in Harr.
    apply (Interleaving_one [] []) in Harr; [|constructor|constructor]. subst arr.
    destruct Hv as [Hk Hl]. unfold Range in Hk. rewrite Hm in Hk.
    apply Permutation_singleton_r in Hk. clear Hsent Hm.
    destruct v as [|[[k d] locs] [|e v]]; [discriminate Hk | | discriminate Hk].
    injection Hk as -> ->.
    apply Forall_cons in Hl as [Hl _]. unfold Range in Hl. simpl in Hl.
    rewrite map_to_list_singleton in Hl. apply Permutation_singleton_r in Hl as ->.
    reflexivity.
Qed.

(** C8 (amended). The text printed for a qualifying entry is its key,
    that is [getKey] of a line that some source holds: the line itself
    when it has fewer than 32 bytes, and otherwise the 64 hexadecimal
    characters of its digest. *)
Theorem report_prints_key (w : world) (files : list string) (arr : list rawLineData)
    (threshold : Z) (v : visit) (line : string) (d : lineData) :
  Arrival w files arr ->
  Visits (aggregate arr) v ->
  (line, d) ∈ emitted threshold v ->
  (sprintf_d (count d) +:+ tab +:+ line +:+ nl) ∈ report threshold v /\
  exists f text,
    f ∈ files /\ text ∈ scanned w f /\ line = getKey text /\
    (len text < 32 -> line = text) /\
    (32 <= len text -> line = hashString text /\ String.length line = 64%nat).
Proof.
  intros Harr Hv He. split.
  - rewrite report_emitted. right. unfold emitted in He.
    apply list_elem_of_fmap in He as ([[line' d'] locs] & [= -> ->] & He).
    apply list_elem_of_In, in_flat_map. exists (line', d', locs).
    split; [apply list_elem_of_In, He | left; reflexivity].
  - apply (emitted_iff _ _ _ _ _ Hv) in He as [Hd _].
    destruct (aggregate_key_origin _ _ _ _ _ Harr Hd) as (f & text & Hf & Htext & ->).
    exists f, text. split; [exact Hf|]. split; [exact Htext|]. split; [reflexivity|].
    unfold getKey. destruct (Z.ltb_spec (len text) 32); split; intros Hlen;
      [reflexivity | lia | lia |].
    split; [reflexivity | apply hashString_length].
Qed.

(** The file with one line of 32 bytes, and A = x, y, x. *)
Lemma report_prints_key_witness :
  let key := "3eb1bd439947eb762998e566ccc2e099c791118b2f40579cc4f7da2b5061b7f9" in
  let arr := concat (sent sample <$> ["long"; "A"]) in
  let v := anyVisit (aggregate arr) in
  Arrival sample ["long"; "A"] arr /\
  Visits (aggregate arr) v /\
  (key, LineData {["long" := [1]]} 1) ∈ emitted 0 v /\
  ("1" +:+ tab +:+ key +:+ nl) ∈ report 0 v /\
  exists f text,
    f ∈ ["long"; "A"] /\ text ∈ scanned sample f /\ key = getKey text /\
    (len text < 32 -> key = text) /\
    (32 <= len text -> key = hashString text /\ String.length key = 64%nat).
Proof.
  intros key arr v.
  assert (Arrival sample ["long"; "A"] arr) as Harr by apply Interleaving_concat.
  assert (Visits (aggregate arr) v) as Hv by apply Visits_anyVisit.
  assert ((key, LineData {["long" := [1]]} 1) ∈ emitted 0 v) as He.
  { apply (emitted_iff 0 (aggregate arr) v _ _ Hv).
    split; [vm_compute; reflexivity | simpl; lia]. }
  split; [exact Harr|]. split; [exact Hv|]. split; [exact He|].
  exact (report_prints_key sample ["long"; "A"] arr 0 v key _ Harr Hv He).
Defined.

(** ** Sorted fast path: one step *)

Lemma sortedStep_again f st x d :
  counts st !! x = Some d ->
  sortedStep f st x =
  Ok (SortedState (<[x := LineData (locations d) (wrap (count d + 1))]> (counts st))
        (wrap (i st + 1)) (prevInputText st)).
Proof. intros Hx. unfold sortedStep. rewrite Hx. reflexivity. Qed.

Lemma sortedStep_first f st x :
  counts st !! x = None ->
  prevInputText st = EmptyString ->
  sortedStep f st x =
  Ok (SortedState (<[x := LineData {[f := [i st]]} 1]> (counts st)) (wrap (i st + 1)) x).
Proof. intros Hx Hp. unfold sortedStep. rewrite Hx, Hp. reflexivity. Qed.

Lemma sortedStep_next f st x p :
  counts st !! x = None ->
  prevInputText st <> EmptyString ->
  counts st !! prevInputText st = Some p ->
  sortedStep f st x =
  Ok (SortedState
        (<[x := LineData {[f := [i st]]} 1]>
           (<[prevInputText st :=
                LineData (appendAt (locations p) f (wrap (i st - 1))) (count p)]>
              (counts st)))
        (wrap (i st + 1)) x).
Proof.
  intros Hx Hp Hprev. unfold sortedStep, prevLineDatum. rewrite Hx.
  apply String.eqb_neq in Hp. rewrite Hp, Hprev. reflexivity.
Qed.

(** A step from a safe state does not panic; it leaves alone every
    entry but that of the line read and, when the line is new and a run
    with a non-empty line is open, that of the open run. *)
Lemma sortedStep_ok f st x :
  Safe st ->
  exists st',
    sortedStep f st x = Ok st' /\
    Safe st' /\
    i st' = wrap (i st + 1) /\
    prevInputText st' =
      match counts st !! x with Some _ => prevInputText st | None => x end /\
    (forall k, is_Some (counts st' !! k) <-> is_Some (counts st !! k) \/ k = x) /\
    (forall k d, counts st !! k = Some d -> k <> x ->
       k <> prevInputText st \/ prevInputText st = EmptyString
       \/ is_Some (counts st !! x) ->
       counts st' !! k = Some d).
Proof.
  unfold Safe. intros Hsafe. destruct (counts st !! x) as [d|] eqn:Hx.
  - eexists. split; [apply (sortedStep_again f st x d Hx)|]. simpl.
    split; [|split; [reflexivity|split; [reflexivity|split]]].
    + destruct Hsafe as [Hp|Hp]; [left; exact Hp | right].
      destruct (decide (x = prevInputText st)) as [Heq|Hne].
      * rewrite <- Heq, lookup_insert_eq. eauto.
      * rewrite lookup_insert_ne by exact Hne. exact Hp.
    + intros k. destruct (decide (x = k)) as [<-|Hne].
      * rewrite lookup_insert_eq, Hx. split; eauto.
      * rewrite lookup_insert_ne by exact Hne. split; [auto|].
        intros [Hk|Hk]; [exact Hk | congruence].
    + intros k d' Hk Hne _. rewrite lookup_insert_ne by auto. exact Hk.
  - destruct (decide (prevInputText st = EmptyString)) as [Hp|Hp].
    + eexists. split; [apply (sortedStep_first f st x Hx Hp)|]. simpl.
      split; [|split; [reflexivity|split; [reflexivity|split]]].
      * right. rewrite lookup_insert_eq. eauto.
      * intros k. destruct (decide (x = k)) as [<-|Hne].
        -- rewrite lookup_insert_eq, Hx. split; eauto.
        -- rewrite lookup_insert_ne by exact Hne. split; [auto|].
           intros [Hk|Hk]; [exact Hk | congruence].
      * intros k d' Hk Hne _. rewrite lookup_insert_ne by auto. exact Hk.
    + destruct Hsafe as [Hp'|[p Hprev]]; [contradiction|].
      eexists. split; [apply (sortedStep_next f st x p Hx Hp Hprev)|]. simpl.
      split; [|split; [reflexivity|split; [reflexivity|split]]].
      * right. rewrite lookup_insert_eq. eauto.
      * intros k. destruct (decide (x = k)) as [<-|Hne].
        -- rewrite lookup_insert_eq, Hx. split; eauto.
        -- rewrite lookup_insert_ne by exact Hne.
           destruct (decide (prevInputText st = k)) as [<-|Hne'].
           ++ rewrite lookup_insert_eq, Hprev. split; eauto.
           ++ rewrite lookup_insert_ne by exact Hne'. split; [auto|].
              intros [Hk|Hk]; [exact Hk | congruence].
      * intros k d' Hk Hne [Hkp|[Hkp|[d'' Hd'']]]; [|contradiction|congruence].
        rewrite lookup_insert_ne by auto.
        rewrite lookup_insert_ne by auto. exact Hk.
Qed.

(** ** Sorted fast path: the loop *)

Lemma sortedLoop_app f a : forall st b,
  sortedLoop f st (a ++ b) = (st' <- sortedLoop f st a ;; sortedLoop f st' b).
Proof.
  induction a as [|x a IH]; intros st b; simpl; [reflexivity|].
  destruct (sortedStep f st x) as [st1|msg]; simpl; [apply IH | reflexivity].
Qed.

(** The loop never panics; it counts the lines and gives an entry to
    exactly the lines it has read. *)
Lemma sortedLoop_ok f input : forall st z,
  Safe st ->
  i st = wrap z ->
  exists st',
    sortedLoop f st input = Ok st' /\
    Safe st' /\
    i st' = wrap (z + Z.of_nat (List.length input)) /\
    (forall k, is_Some (counts st' !! k) <-> is_Some (counts st !! k) \/ k ∈ input).
Proof.
  induction input as [|x input IH]; intros st z Hsafe Hi; simpl.
  - exists st. split; [reflexivity|]. split; [exact Hsafe|]. split.
    + rewrite Z.add_0_r. exact Hi.
    + intros k. rewrite elem_of_nil. tauto.
  - destruct (sortedStep_ok f st x Hsafe) as (st1 & -> & Hsafe1 & Hi1 & _ & Hdom1 & _).
    simpl. rewrite Hi, wrap_add_l in Hi1.
    destruct (IH st1 (z + 1) Hsafe1 Hi1) as (st' & -> & Hsafe' & Hi' & Hdom').
    exists st'. split; [reflexivity|]. split; [exact Hsafe'|]. split.
    + rewrite Hi'. f_equal. lia.
    + intros k. rewrite Hdom', Hdom1, elem_of_cons. tauto.
Qed.

Lemma Safe_init : Safe sortedInit.
Proof. left. reflexivity. Qed.

Lemma appendAt_singleton (f : string) (l : list Z) (n : Z) :
  appendAt {[f := l]} f n = {[f := l ++ [n]]}.
Proof. unfold appendAt. rewrite lookup_singleton_eq. simpl. apply insert_singleton_eq. Qed.

(** Evaluate the [wrap]s of closed numbers in the goal. *)
Ltac eval_wrap :=
  repeat match goal with
         | |- context [wrap ?z] =>
             let v := eval vm_compute in (wrap z) in
             change (wrap z) with v
         end.

Ltac after_step :=
  cbn [bind counts i prevInputText locations count];
  rewrite ?appendAt_singleton, ?insert_insert_eq;
  cbn [app]; eval_wrap.

Lemma sorted_example_state f :
  sortedLoop f sortedInit ["a"; "a"; "a"; "b"; "b"; "c"] =
  Ok (SortedState
        (<["c" := LineData {[f := [6]]} 1]>
           (<["b" := LineData {[f := [4; 5]]} 2]>
              (<["a" := LineData {[f := [1; 3]]} 3]> ∅)))
        7 "c").
Proof.
  unfold sortedInit. cbn [sortedLoop].
  erewrite sortedStep_first by reflexivity. after_step.
  erewrite sortedStep_again by apply lookup_insert_eq. after_step.
  erewrite sortedStep_again by apply lookup_insert_eq. after_step.
  erewrite (sortedStep_next f _ "b");
    [|reflexivity | discriminate | apply lookup_insert_eq]. after_step.
  erewrite sortedStep_again by apply lookup_insert_eq. after_step.
  erewrite (sortedStep_next f _ "c");
    [|reflexivity | discriminate | apply lookup_insert_eq]. after_step.
  reflexivity.
Qed.

(** ** Sorted fast path: the report *)

Lemma sortedReport_all_ok threshold f kvs :
  Forall (fun e => threshold < count (snd e) ->
                   exists text, printSorted f (fst e) (snd e) = Ok text) kvs ->
  sortedReport threshold f kvs = Run (sortedTexts threshold f kvs) Returned.
Proof.
  induction 1 as [|[line d] kvs Hd _ IH]; [reflexivity|].
  unfold sortedTexts in *. simpl in *.
  destruct (Z.gtb_spec (count d) threshold) as [Hgt|Hle].
  - destruct Hd as [text ->]; [lia|]. rewrite IH. reflexivity.
  - exact IH.
Qed.

Lemma sortedTexts_perm threshold f kvs1 kvs2 :
  kvs1 ≡ₚ kvs2 -> sortedTexts threshold f kvs1 ≡ₚ sortedTexts threshold f kvs2.
Proof. intros Hp. unfold sortedTexts. apply Permutation_flat_map, Hp. Qed.

Lemma printSorted_closed f line c (a b : Z) :
  printSorted f line (LineData {[f := [a; b]]} c) =
  Ok (sprintf_d c +:+ tab +:+ line +:+ tab +:+ "start: " +:+ sprintf_d a
      +:+ ", end: " +:+ sprintf_d b +:+ nl).
Proof. unfold printSorted. simpl. rewrite lookup_singleton_eq. reflexivity. Qed.

Lemma printSorted_open f line c (a : Z) :
  printSorted f line (LineData {[f := [a]]} c) =
  Panic "runtime error: index out of range [1] with length 1".
Proof. unfold printSorted. simpl. rewrite lookup_singleton_eq. reflexivity. Qed.

(** C5. On the lines a, a, a, b, b, c with threshold 1 the sorted path
    holds a with count 3 and boundaries 1 and 3, b with count 2 and
    boundaries 4 and 5, and c with count 1; every run returns normally
    and reports exactly the entries of a and b, in either order. *)
Theorem sorted_worked_example (w : world) (f : string) :
  os_Open w f = Some ["a"; "a"; "a"; "b"; "b"; "c"] ->
  (exists st,
     sortedLoop f sortedInit ["a"; "a"; "a"; "b"; "b"; "c"] = Ok st /\
     counts st !! "a" = Some (LineData {[f := [1; 3]]} 3) /\
     counts st !! "b" = Some (LineData {[f := [4; 5]]} 2) /\
     counts st !! "c" = Some (LineData {[f := [6]]} 1) /\
     dom (counts st) = {["a"; "b"; "c"]}) /\
  (exists r, DupDetectSorted w 1 f r) /\
  (forall r, DupDetectSorted w 1 f r ->
     result r = Returned /\
     exists body,
       stdout r = nl :: body /\
       body ≡ₚ ["3" +:+ tab +:+ "a" +:+ tab +:+ "start: 1, end: 3" +:+ nl;
                "2" +:+ tab +:+ "b" +:+ tab +:+ "start: 4, end: 5" +:+ nl]).
Proof.
  intros Hopen. pose proof (sorted_example_state f) as Hloop.
  split; [|split].
  - eexists. split; [exact Hloop|]. cbn [counts].
    split; [reflexivity|]. split; [reflexivity|]. split; [reflexivity|].
    rewrite !dom_insert_L, dom_empty_L. set_solver.
  - eexists. eapply sorted_report; [exact Hopen | exact Hloop | unfold Range; reflexivity].
  - intros r Hr.
    inversion Hr as [Hnone|input msg Hin Hpanic|input st kvs Hin Hst Hkvs]; subst.
    + congruence.
    + rewrite Hopen in Hin. injection Hin as <-. congruence.
    + rewrite Hopen in Hin. injection Hin as <-.
      rewrite Hloop in Hst. injection Hst as <-.
      unfold Range in Hkvs. cbn [counts] in Hkvs.
      rewrite !map_to_list_insert, map_to_list_empty in Hkvs by reflexivity.
      rewrite sortedReport_all_ok.
      * cbn [stdout result]. split; [reflexivity|]. eexists. split; [reflexivity|].
        rewrite (sortedTexts_perm _ _ _ _ Hkvs).
        unfold sortedTexts. cbn [flat_map fst snd count].
        rewrite !printSorted_closed. simpl. apply perm_swap.
      * rewrite Hkvs. repeat apply Forall_cons_2; try apply Forall_nil_2; cbn [fst snd count].
        -- intros Hlt. lia.
        -- intros _. rewrite printSorted_closed. eauto.
        -- intros _. rewrite printSorted_closed. eauto.
Qed.

(** The file sorteda of the sample. *)
Lemma sorted_worked_example_witness :
  os_Open sample "sorteda" = Some ["a"; "a"; "a"; "b"; "b"; "c"] /\
  exists r,
    DupDetectSorted sample 1 "sorteda" r /\
    result r = Returned /\
    exists body,
      stdout r = nl :: body /\
      body ≡ₚ ["3" +:+ tab +:+ "a" +:+ tab +:+ "start: 1, end: 3" +:+ nl;
               "2" +:+ tab +:+ "b" +:+ tab +:+ "start: 4, end: 5" +:+ nl].
Proof.
  assert (os_Open sample "sorteda" = Some ["a"; "a"; "a"; "b"; "b"; "c"]) as Hopen
    by reflexivity.
  split; [exact Hopen|].
  destruct (sorted_worked_example sample "sorteda" Hopen) as (_ & [r Hr] & Hall).
  exists r. split; [exact Hr | exact (Hall r Hr)].
Defined.

(** ** Sorted fast path: runs *)

(** Reading again the line whose entry exists only counts it. *)
Lemma sortedLoop_repeat f x n : forall st d c,
  counts st !! x = Some d ->
  count d = wrap c ->
  exists st',
    sortedLoop f st (replicate n x) = Ok st' /\
    counts st' !! x = Some (LineData (locations d) (wrap (c + Z.of_nat n))) /\
    prevInputText st' = prevInputText st /\
    (Safe st -> Safe st').
Proof.
  induction n as [|n IH]; intros st d c Hx Hc.
  - exists st. split; [reflexivity|]. split; [|auto].
    rewrite Hx, Z.add_0_r, <- Hc. destruct d; reflexivity.
  - cbn [replicate sortedLoop]. rewrite (sortedStep_again f st x d Hx). cbn [bind].
    edestruct (IH (SortedState (<[x := LineData (locations d) (wrap (count d + 1))]> (counts st))
                     (wrap (i st + 1)) (prevInputText st))
                 (LineData (locations d) (wrap (count d + 1))) (c + 1))
      as (st' & Hloop & Hx' & Hp' & Hsafe').
    + apply lookup_insert_eq.
    + simpl. rewrite Hc. apply wrap_add_l.
    + exists st'. split; [exact Hloop|]. split; [|split; [exact Hp'|]].
      * rewrite Hx'. simpl. do 3 f_equal. lia.
      * intros Hsafe. apply Hsafe'. unfold Safe in *. simpl.
        destruct Hsafe as [Hp|Hp]; [left; exact Hp | right].
        destruct (decide (x = prevInputText st)) as [Heq|Hne].
        -- rewrite <- Heq, lookup_insert_eq. eauto.
        -- rewrite lookup_insert_ne by exact Hne. exact Hp.
Qed.

(** A run of a line seen for the first time: its entry keeps the line
    number at which it starts and nothing else. *)
Lemma sortedLoop_run f x n st :
  Safe st ->
  counts st !! x = None ->
  exists st',
    sortedLoop f st (replicate (S n) x) = Ok st' /\
    Safe st' /\
    prevInputText st' = x /\
    counts st' !! x = Some (LineData {[f := [i st]]} (wrap (Z.of_nat (S n)))).
Proof.
  intros Hsafe Hx. cbn [replicate sortedLoop].
  destruct (sortedStep_ok f st x Hsafe) as (st1 & Hstep & Hsafe1 & _ & Hp1 & _).
  rewrite Hx in Hp1.
  assert (counts st1 !! x = Some (LineData {[f := [i st]]} 1)) as Hx1.
  { destruct (decide (prevInputText st = EmptyString)) as [Hp|Hp].
    - rewrite (sortedStep_first f st x Hx Hp) in Hstep. injection Hstep as <-.
      apply lookup_insert_eq.
    - destruct Hsafe as [Hp'|[p Hprev]]; [contradiction|].
      rewrite (sortedStep_next f st x p Hx Hp Hprev) in Hstep. injection Hstep as <-.
      apply lookup_insert_eq. }
  rewrite Hstep. cbn [bind].
  destruct (sortedLoop_repeat f x n st1 _ 1 Hx1 eq_refl)
    as (st' & Hloop & Hx' & Hp' & Hsafe').
  exists st'. split; [exact Hloop|]. split; [auto|]. split; [congruence|].
  rewrite Hx'. simpl. do 3 f_equal. lia.
Qed.

(** The last run of any input: nothing follows it, so nothing records
    where it ends. *)
Lemma sorted_final_run_left_open f pre x n :
  x ∉ pre ->
  exists st,
    sortedLoop f sortedInit (pre ++ replicate (S n) x) = Ok st /\
    Safe st /\
    prevInputText st = x /\
    counts st !! x =
      Some (LineData {[f := [wrap (1 + Z.of_nat (List.length pre))]]}
              (wrap (Z.of_nat (S n)))).
Proof.
  intros Hx. rewrite sortedLoop_app.
  destruct (sortedLoop_ok f pre sortedInit 1 Safe_init eq_refl)
    as (st1 & -> & Hsafe1 & Hi1 & Hdom1).
  cbn [bind].
  assert (counts st1 !! x = None) as Hnone.
  { apply eq_None_not_Some. rewrite Hdom1. intros [[d Hd]|Hin]; [|contradiction].
    simpl in Hd. rewrite lookup_empty in Hd. discriminate. }
  destruct (sortedLoop_run f x n st1 Hsafe1 Hnone) as (st & Hloop & Hsafe & Hp & Hcount).
  exists st. rewrite <- Hi1. auto.
Qed.

(** An entry above the threshold whose line cannot be printed makes
    every order of the report panic. *)
Lemma sortedReport_panics threshold f kvs x d :
  (x, d) ∈ kvs ->
  threshold < count d ->
  (forall text, printSorted f x d <> Ok text) ->
  exists msg, result (sortedReport threshold f kvs) = Panicked msg.
Proof.
  intros Hin Hlt Hbad.
  destruct (result (sortedReport threshold f kvs)) as [|msg] eqn:Hres; [|eauto].
  pose proof (sortedReport_returned threshold f kvs Hres) as Hall.
  assert ((x, d) ∈ filter (fun e => threshold < count (snd e)) kvs) as Hq
    by (apply list_elem_of_filter; auto).
  apply list_elem_of_lookup in Hq as [j Hj].
  destruct (Forall2_lookup_l _ _ _ _ _ Hall Hj) as (text & _ & Htext).
  destruct (Hbad text Htext).
Qed.

(** Whenever the last run of the file is of a new line and has more
    occurrences than the threshold, the sorted path panics. *)
Lemma DupDetectSorted_final_run_panics w threshold f pre x n r :
  os_Open w f = Some (pre ++ replicate (S n) x) ->
  x ∉ pre ->
  threshold < wrap (Z.of_nat (S n)) ->
  DupDetectSorted w threshold f r ->
  exists msg, result r = Panicked msg.
Proof.
  intros Hopen Hx Hlt Hr.
  destruct (sorted_final_run_left_open f pre x n Hx) as (st & Hloop & _ & _ & Hentry).
  inversion Hr as [Hnone|input msg Hin Hpanic|input st' kvs Hin Hst Hkvs]; subst.
  - congruence.
  - simpl. eauto.
  - assert (input = pre ++ replicate (S n) x) as -> by congruence.
    assert (st' = st) as -> by congruence. cbn [result].
    eapply sortedReport_panics.
    + unfold Range in Hkvs. rewrite Hkvs. apply elem_of_map_to_list, Hentry.
    + exact Hlt.
    + intros text. rewrite printSorted_open. discriminate.
Qed.

(** C2 (defect of the code). The claim asks for a final flush that gives
    the last run its end boundary; [DupDetectSorted] has none.  On the
    file aa = a, a with threshold 1 the entry of a keeps the start line
    only, and the one run there is panics at index 1 of that list. *)
Theorem sorted_final_run_panics_at_aa :
  os_Open sample "aa" = Some ["a"; "a"] /\
  sortedLoop "aa" sortedInit ["a"; "a"] =
    Ok (SortedState (<["a" := LineData {["aa" := [1]]} 2]> ∅) 3 "a") /\
  DupDetectSorted sample 1 "aa"
    (Run [nl] (Panicked "runtime error: index out of range [1] with length 1")) /\
  (forall r, DupDetectSorted sample 1 "aa" r ->
     r = Run [nl] (Panicked "runtime error: index out of range [1] with length 1")).
Proof.
  assert (os_Open sample "aa" = Some ["a"; "a"]) as Hopen by reflexivity.
  assert (sortedLoop "aa" sortedInit ["a"; "a"] =
          Ok (SortedState (<["a" := LineData {["aa" := [1]]} 2]> ∅) 3 "a")) as Hloop.
  { unfold sortedInit. cbn [sortedLoop].
    erewrite sortedStep_first by reflexivity. after_step.
    erewrite sortedStep_again by apply lookup_insert_eq. after_step.
    reflexivity. }
  assert (forall kvs,
            Range (<["a" := LineData {["aa" := [1]]} 2]> (∅ : gmap string lineData)) kvs ->
            sortedReport 1 "aa" kvs =
            Run [] (Panicked "runtime error: index out of range [1] with length 1"))
    as Hrep.
  { intros kvs Hkvs. unfold Range in Hkvs.
    rewrite insert_empty, map_to_list_singleton in Hkvs.
    apply Permutation_singleton_r in Hkvs as ->.
    cbn [sortedReport count]. rewrite printSorted_open. reflexivity. }
  split; [exact Hopen|]. split; [exact Hloop|]. split.
  - pose proof (sorted_report sample 1 "aa" _ _ _ Hopen Hloop
                  (reflexivity (map_to_list _))) as Hr.
    cbn [counts] in Hr. rewrite Hrep in Hr by (unfold Range; reflexivity). exact Hr.
  - intros r Hr.
    inversion Hr as [Hnone|input msg Hin Hpanic|input st kvs Hin Hst Hkvs]; subst.
    + congruence.
    + assert (input = ["a"; "a"]) as -> by congruence. congruence.
    + assert (input = ["a"; "a"]) as -> by congruence.
      rewrite Hloop in Hst. injection Hst as <-. cbn [counts] in Hkvs.
      rewrite (Hrep kvs Hkvs). reflexivity.
Qed.

(** The runs of the sorted path on the file aa = a, a at threshold 1. *)
Lemma DupDetectSorted_aa_runs (r : run) :
  DupDetectSorted sample 1 "aa" r ->
  r = Run [nl] (Panicked "runtime error: index out of range [1] with length 1").
Proof.
  intros Hr.
  assert (sortedLoop "aa" sortedInit ["a"; "a"] =
          Ok (SortedState (<["a" := LineData {["aa" := [1]]} 2]> ∅) 3 "a")) as Hloop.
  { unfold sortedInit. cbn [sortedLoop].
    erewrite sortedStep_first by reflexivity. after_step.
    erewrite sortedStep_again by apply lookup_insert_eq. after_step.
    reflexivity. }
  inversion Hr as [Hnone|input msg Hin Hpanic|input st kvs Hin Hst Hkvs]; subst.
  - discriminate Hnone.
  - assert (input = ["a"; "a"]) as -> by (cbn in Hin; congruence). congruence.
  - assert (input = ["a"; "a"]) as -> by (cbn in Hin; congruence).
    rewrite Hloop in Hst. injection Hst as <-. cbn [counts] in Hkvs.
    unfold Range in Hkvs. rewrite insert_empty, map_to_list_singleton in Hkvs.
    apply Permutation_singleton_r in Hkvs as ->.
    cbn [sortedReport count]. rewrite printSorted_open. reflexivity.
Qed.

(** The runs of the multi-source path on the same file. *)
Lemma DupDetectFiles_aa_runs (r : run) :
  DupDetectFiles sample 1 false ["aa"] r ->
  r = Run ["----" +:+ nl; "2" +:+ tab +:+ "a" +:+ nl;
           tab +:+ "FileName: aa, lineNums: [1 2]" +:+ nl] Returned.
Proof.
  intros Hr.
  assert ((fun f => snd (collectLines sample f)) <$> ["aa"]
          = [[RawLineData "a" "aa" 1; RawLineData "a" "aa" 2]]) as Hsent
    by (vm_compute; reflexivity).
  assert (map_to_list (aggregate [RawLineData "a" "aa" 1; RawLineData "a" "aa" 2])
          = [("a", LineData {["aa" := [1; 2]]} 2)]) as Hm by (vm_compute; reflexivity).
  inversion Hr as [r' Hnil _|f0 files' r' _ Hsorted _|errs arr v _ _ Herrs Harr Hv];
    subst; [discriminate | discriminate |].
  simpl in Herrs. apply Permutation_nil_r in Herrs as ->.
  unfold Arrival in Harr. rewrite Hsent in Harr.
  apply (Interleaving_one [] []) in Harr; [|constructor|constructor]. subst arr.
  destruct Hv as [Hk Hl]. unfold Range in Hk. rewrite Hm in Hk.
  apply Permutation_singleton_r in Hk. clear Hsent Hm.
  destruct v as [|[[k d] locs] [|e v]]; [discriminate Hk | | discriminate Hk].
  injection Hk as -> ->.
  apply Forall_cons in Hl as [Hl _]. unfold Range in Hl. simpl in Hl.
  rewrite map_to_list_singleton in Hl. apply Permutation_singleton_r in Hl as ->.
  reflexivity.
Qed.

(** C4 (defect of the code). The claim has every entry above the
    threshold emitted once the input is consumed, by the report of the
    multi-source path and by that of the sorted path alike.  The first
    does so; the second tests [count > threshold] as well but panics at
    an entry whose run was never closed, before it prints it.  On the
    file aa = a, a with threshold 1 the entry of a has count 2: every
    run of the multi-source path prints it, and no run of the sorted
    path prints anything but the empty line. *)
Theorem sorted_report_misses_entry_above_threshold :
  sortedLoop "aa" sortedInit ["a"; "a"] =
    Ok (SortedState (<["a" := LineData {["aa" := [1]]} 2]> ∅) 3 "a") /\
  1 < count (LineData {["aa" := [1]]} 2) /\
  (exists r, DupDetectSorted sample 1 "aa" r) /\
  (forall r, DupDetectSorted sample 1 "aa" r ->
     stdout r = [nl] /\ exists msg, result r = Panicked msg) /\
  (exists r, DupDetectFiles sample 1 false ["aa"] r) /\
  (forall r, DupDetectFiles sample 1 false ["aa"] r ->
     result r = Returned /\
     stdout r = ["----" +:+ nl; "2" +:+ tab +:+ "a" +:+ nl;
                 tab +:+ "FileName: aa, lineNums: [1 2]" +:+ nl]).
Proof.
  assert (sortedLoop "aa" sortedInit ["a"; "a"] =
          Ok (SortedState (<["a" := LineData {["aa" := [1]]} 2]> ∅) 3 "a")) as Hloop.
  { unfold sortedInit. cbn [sortedLoop].
    erewrite sortedStep_first by reflexivity. after_step.
    erewrite sortedStep_again by apply lookup_insert_eq. after_step.
    reflexivity. }
  split; [exact Hloop|]. split; [simpl; lia|]. split; [|split; [|split]].
  - eexists. eapply sorted_report; [reflexivity | exact Hloop | unfold Range; reflexivity].
  - intros r Hr. rewrite (DupDetectSorted_aa_runs r Hr). cbn [stdout result].
    split; [reflexivity | eauto].
  - eexists.
    apply (files_many sample 1 false ["aa"] []
             (concat (sent sample <$> ["aa"]))
             (anyVisit (aggregate (concat (sent sample <$> ["aa"])))));
      [discriminate | reflexivity | reflexivity
      | apply Interleaving_concat | apply Visits_anyVisit].
  - intros r Hr. rewrite (DupDetectFiles_aa_runs r Hr). cbn [stdout result].
    split; reflexivity.
Qed.

(** ** Empty lines *)

(** Once the empty line has an entry, no later step touches its list. *)
Lemma sortedLoop_keeps_empty f input : forall st d,
  Safe st ->
  counts st !! EmptyString = Some d ->
  exists st' d',
    sortedLoop f st input = Ok st' /\
    counts st' !! EmptyString = Some d' /\
    locations d' = locations d.
Proof.
  induction input as [|x input IH]; intros st d Hsafe Hd; cbn [sortedLoop].
  - exists st, d. auto.
  - destruct (sortedStep_ok f st x Hsafe) as (st1 & Hstep & Hsafe1 & _ & _ & _ & Hkeep).
    assert (exists d1, counts st1 !! EmptyString = Some d1 /\ locations d1 = locations d)
      as (d1 & Hd1 & Hl1).
    { destruct (decide (x = EmptyString)) as [->|Hne].
      - rewrite (sortedStep_again f st _ d Hd) in Hstep. injection Hstep as <-.
        eexists. split; [apply lookup_insert_eq | reflexivity].
      - exists d. split; [|reflexivity]. apply Hkeep; [exact Hd | congruence |].
        destruct (decide (prevInputText st = EmptyString)); [right; left | left]; congruence. }
    rewrite Hstep. cbn [bind].
    destruct (IH st1 d1 Hsafe1 Hd1) as (st' & d' & Hloop & Hd' & Hl').
    exists st', d'. split; [exact Hloop|]. split; [exact Hd' | congruence].
Qed.

(** The line read while the empty line is the open run changes no other
    entry: the empty line's run is not finalized. *)
Lemma sortedStep_after_empty f st x :
  Safe st ->
  prevInputText st = EmptyString ->
  exists st',
    sortedStep f st x = Ok st' /\
    forall k, k <> x -> counts st' !! k = counts st !! k.
Proof.
  intros Hsafe Hp.
  destruct (sortedStep_ok f st x Hsafe) as (st' & Hstep & _ & _ & _ & Hdom & Hkeep).
  exists st'. split; [exact Hstep|]. intros k Hk.
  destruct (counts st !! k) as [d|] eqn:Hd.
  - apply Hkeep; auto.
  - apply eq_None_not_Some. rewrite Hdom, Hd. intros [[d' [=]]|Heq]. contradiction.
Qed.

(** C10. In the sorted path the empty string is also the mark for "no
    run open".  When a run of empty lines is followed by another line,
    reading that line changes no entry but its own (the run of empty
    lines is not finalized), and at the end of the input the entry of the
    empty line still holds the start line number alone. *)
Theorem empty_line_run_never_closed (f : string) (pre post : list string) (n : nat)
    (x : string) :
  EmptyString ∉ pre ->
  x <> EmptyString ->
  Z.of_nat (List.length pre) + 1 < 2 ^ 63 ->
  exists st1 st2 st d,
    sortedLoop f sortedInit (pre ++ replicate (S n) EmptyString) = Ok st1 /\
    prevInputText st1 = EmptyString /\
    sortedStep f st1 x = Ok st2 /\
    (forall k, k <> x -> counts st2 !! k = counts st1 !! k) /\
    sortedLoop f sortedInit (pre ++ replicate (S n) EmptyString ++ x :: post) = Ok st /\
    counts st !! EmptyString = Some d /\
    locations d = {[f := [Z.of_nat (List.length pre) + 1]]} /\
    printSorted f EmptyString d =
      Panic "runtime error: index out of range [1] with length 1".
Proof.
  intros Hpre Hx Hlen.
  destruct (sorted_final_run_left_open f pre EmptyString n Hpre)
    as (st1 & Hloop1 & Hsafe1 & Hp1 & Hentry).
  rewrite wrap_small in Hentry by (unfold int_ok; lia).
  destruct (sortedStep_after_empty f st1 x Hsafe1 Hp1) as (st2 & Hstep & Hsame).
  destruct (sortedLoop_keeps_empty f (x :: post) st1 _ Hsafe1 Hentry)
    as (st & d & Hloop & Hd & Hl).
  exists st1, st2, st, d.
  split; [exact Hloop1|]. split; [exact Hp1|]. split; [exact Hstep|].
  split; [exact Hsame|]. split; [|split; [exact Hd|split]].
  - rewrite app_assoc, sortedLoop_app, Hloop1. exact Hloop.
  - rewrite Hl. simpl.
    replace (1 + Z.of_nat (List.length pre)) with (Z.of_nat (List.length pre) + 1) by lia.
    reflexivity.
  - destruct d as [l c]. simpl in Hl. subst l. apply printSorted_open.
Qed.

(** The file blank of the sample: two empty lines, then b twice. *)
Lemma empty_line_run_never_closed_witness :
  (EmptyString ∉ @nil string) /\
  "b" <> EmptyString /\
  Z.of_nat (List.length (@nil string)) + 1 < 2 ^ 63 /\
  os_Open sample "blank" = Some ([] ++ replicate 2 EmptyString ++ "b" :: ["b"]) /\
  exists st1 st2 st d,
    sortedLoop "blank" sortedInit ([] ++ replicate 2 EmptyString) = Ok st1 /\
    prevInputText st1 = EmptyString /\
    sortedStep "blank" st1 "b" = Ok st2 /\
    (forall k, k <> "b" -> counts st2 !! k = counts st1 !! k) /\
    sortedLoop "blank" sortedInit ([] ++ replicate 2 EmptyString ++ "b" :: ["b"]) = Ok st /\
    counts st !! EmptyString = Some d /\
    locations d = {["blank" := [Z.of_nat (List.length (@nil string)) + 1]]} /\
    printSorted "blank" EmptyString d =
      Panic "runtime error: index out of range [1] with length 1".
Proof.
  assert (EmptyString ∉ @nil string) as Hpre by apply not_elem_of_nil.
  assert ("b" <> EmptyString) as Hx by discriminate.
  assert (Z.of_nat (List.length (@nil string)) + 1 < 2 ^ 63) as Hlen
    by (vm_compute; reflexivity).
  split; [exact Hpre|]. split; [exact Hx|]. split; [exact Hlen|].
  split; [reflexivity|].
  exact (empty_line_run_never_closed "blank" [] ["b"] 1 "b" Hpre Hx Hlen).
Defined.

(** * Further properties of the code *)

(** ** Keys of short lines *)

(** X1. [getKey] is exact on short lines: a line of fewer than 32 bytes
    never shares its key with a different line, short or long, so only
    long lines can be merged by the hashing. *)
Theorem getKey_exact_on_short (s1 s2 : string) :
  len s1 < 32 -> s1 <> s2 -> getKey s1 <> getKey s2.
Proof.
  intros Hshort Hne Hkey. unfold getKey in Hkey.
  destruct (Z.ltb_spec (len s1) 32) as [_|Hge]; [|lia].
  destruct (Z.ltb_spec (len s2) 32) as [_|Hlong]; [contradiction|].
  assert (String.length s1 = 64%nat) as H64 by (rewrite Hkey; apply hashString_length).
  unfold len in Hshort. lia.
Qed.

Lemma getKey_exact_on_short_witness :
  len "abc" < 32 /\
  "abc" <> "0123456789abcdef0123456789abcdef" /\
  getKey "abc" <> getKey "0123456789abcdef0123456789abcdef".
Proof.
  assert (len "abc" < 32) as Hshort by (vm_compute; reflexivity).
  assert ("abc" <> "0123456789abcdef0123456789abcdef") as Hne by discriminate.
  split; [exact Hshort|]. split; [exact Hne|].
  exact (getKey_exact_on_short "abc" "0123456789abcdef0123456789abcdef" Hshort Hne).
Defined.

(** ** Argument separator *)

Lemma string_app_assoc (a b c : string) : (a +:+ b) +:+ c = a +:+ (b +:+ c).
Proof.
  induction a as [|x a IH]; [reflexivity|].
  change (String x ((a +:+ b) +:+ c) = String x (a +:+ (b +:+ c))).
  rewrite IH. reflexivity.
Qed.

Lemma join_fold_prefix (sep a b : string) (l : list string) :
  fold_left (fun b s' => b +:+ sep +:+ s') l (a +:+ b)
  = a +:+ fold_left (fun b s' => b +:+ sep +:+ s') l b.
Proof.
  revert b. induction l as [|s l IH]; intros b; cbn [fold_left]; [reflexivity|].
  rewrite string_app_assoc. apply IH.
Qed.

Lemma strings_Join_cons sep s l :
  strings_Join (s :: l) sep = fold_left (fun b s' => b +:+ sep +:+ s') l s.
Proof. destruct l; reflexivity. Qed.

Lemma loopConcat_loop_join rest : forall s n i out,
  n = i + 1 + Z.of_nat (List.length rest) ->
  loopConcat_loop n i out (s :: rest)
  = out +:+ fold_left (fun b s' => b +:+ " " +:+ s') rest s.
Proof.
  induction rest as [|s' rest IH]; intros s n i out Hn.
  - cbn [loopConcat_loop fold_left].
    rewrite (proj2 (Z.ltb_ge i _)) by (simpl in Hn; lia). reflexivity.
  - cbn [loopConcat_loop] in *.
    rewrite (proj2 (Z.ltb_lt i _)) by (simpl List.length in Hn; lia).
    rewrite (IH s' n (i + 1)) by (simpl List.length in Hn; lia).
    cbn [fold_left].
    rewrite <- (string_app_assoc s " " s'), join_fold_prefix.
    rewrite !string_app_assoc. reflexivity.
Qed.

Lemma string_app_length (a b : string) :
  String.length (a +:+ b) = (String.length a + String.length b)%nat.
Proof.
  induction a as [|x a IH]; [reflexivity|].
  change (S (String.length (a +:+ b)) = S (String.length a + String.length b)).
  rewrite IH. reflexivity.
Qed.

Lemma join_fold_length (l : list string) : forall b,
  String.length (fold_left (fun b s' => b +:+ " " +:+ s') l b)
  = (String.length b + sum_list (String.length <$> l) + List.length l)%nat.
Proof.
  induction l as [|s l IH]; intros b; cbn [fold_left].
  - simpl. lia.
  - rewrite IH, !string_app_length, fmap_cons. simpl.
    generalize (String.length b) (String.length s)
      (sum_list (String.length <$> l)) (List.length l).
    intros n1 n2 n3 n4. lia.
Qed.

(** X2. The three ways of joining the arguments give the same text for
    every slice: [loopConcat] and [fmtSprint] return what
    [strings.Join(strs, " ")] returns.  That text is as long as the
    elements together plus one space for each element after the first:
    one separator between neighbours and none added before or after. *)
Theorem joins_agree (strs : list string) :
  loopConcat strs = stringJoin strs /\
  fmtSprint strs = stringJoin strs /\
  String.length (stringJoin strs)
  = (sum_list (String.length <$> strs) + (List.length strs - 1))%nat.
Proof.
  split; [|split].
  - destruct strs as [|s rest]; [reflexivity|].
    unfold loopConcat, stringJoin. rewrite strings_Join_cons.
    rewrite (loopConcat_loop_join rest s _ 0 EmptyString) by (simpl List.length; lia).
    reflexivity.
  - destruct strs as [|s rest]; [reflexivity|].
    unfold fmtSprint, stringJoin. rewrite strings_Join_cons. reflexivity.
  - destruct strs as [|s rest]; [reflexivity|].
    unfold stringJoin. rewrite strings_Join_cons, join_fold_length, fmap_cons.
    change (sum_list (String.length s :: (String.length <$> rest)))
      with (String.length s + sum_list (String.length <$> rest))%nat.
    simpl List.length. lia.
Qed.

(** ** The original counter *)

Lemma occurrences_snoc x done y :
  occurrences x (done ++ [y]) =
  (occurrences x done + if decide (y = x) then 1 else 0)%nat.
Proof.
  unfold occurrences. rewrite filter_app, length_app, filter_cons, filter_nil.
  destruct (decide (y = x)); reflexivity.
Qed.

Lemma occurrences_le x input : (occurrences x input <= List.length input)%nat.
Proof. apply length_filter. Qed.

Lemma occurrences_pos x input : occurrences x input <> 0%nat <-> x ∈ input.
Proof.
  unfold occurrences. split.
  - destruct (filter (fun y => y = x) input) as [|y l] eqn:Hf; [contradiction|].
    intros _. assert (y ∈ filter (fun y => y = x) input) as Hy by (rewrite Hf; left).
    apply list_elem_of_filter in Hy as [-> Hy]. exact Hy.
  - intros Hin Hz. apply length_zero_iff_nil in Hz.
    eapply (filter_nil_not_elem_of _ _ x Hz); [reflexivity | exact Hin].
Qed.

Lemma originalStep_tracks done m y :
  (forall x, m !! x =
     if decide (occurrences x done = 0%nat) then None
     else Some (wrap (Z.of_nat (occurrences x done)))) ->
  forall x, originalStep m y !! x =
    if decide (occurrences x (done ++ [y]) = 0%nat) then None
    else Some (wrap (Z.of_nat (occurrences x (done ++ [y])))).
Proof.
  intros Hm x. unfold originalStep. rewrite occurrences_snoc.
  destruct (decide (y = x)) as [->|Hne].
  - rewrite lookup_insert_eq, Hm.
    destruct (decide (occurrences x done = 0%nat)) as [Hz|Hpos]; simpl.
    + rewrite Hz. reflexivity.
    + rewrite decide_False by lia. rewrite wrap_add_l. do 2 f_equal. lia.
  - rewrite lookup_insert_ne by exact Hne. rewrite Nat.add_0_r. apply Hm.
Qed.

(** The original counter holds, for each line read, how often it was
    read. *)
Lemma originalCounts_lookup input x :
  originalCounts input !! x =
  if decide (occurrences x input = 0%nat) then None
  else Some (wrap (Z.of_nat (occurrences x input))).
Proof.
  unfold originalCounts.
  assert (forall rest done m,
            (forall x, m !! x =
               if decide (occurrences x done = 0%nat) then None
               else Some (wrap (Z.of_nat (occurrences x done)))) ->
            forall x, fold_left originalStep rest m !! x =
               if decide (occurrences x (done ++ rest) = 0%nat) then None
               else Some (wrap (Z.of_nat (occurrences x (done ++ rest))))) as Hfold.
  { induction rest as [|y rest IH]; intros done m Hm z; simpl.
    - rewrite app_nil_r. apply Hm.
    - rewrite (cons_middle y done rest), app_assoc.
      apply IH, originalStep_tracks, Hm. }
  apply (Hfold input [] ∅). intros z. rewrite lookup_empty. reflexivity.
Qed.

(** ** Standard input only *)

Lemma stdinStep_counts m i y :
  count <$> fst (stdinStep (m, i) y) = originalStep (count <$> m) y.
Proof.
  unfold stdinStep, originalStep. simpl. rewrite fmap_insert, lookup_fmap.
  destruct (m !! y) as [d|]; reflexivity.
Qed.

Lemma stdin_fold_counts input : forall m i,
  count <$> fst (fold_left stdinStep input (m, i))
  = fold_left originalStep input (count <$> m).
Proof.
  induction input as [|y input IH]; intros m i; [reflexivity|].
  cbn [fold_left]. destruct (stdinStep (m, i) y) as [m' i'] eqn:Hstep.
  rewrite IH. f_equal.
  change m' with (fst (m', i')). rewrite <- Hstep. apply stdinStep_counts.
Qed.

(** X3. [DupDetect] counts as the original counter does: the counts of
    its mapping are the original's, so at threshold 1 it reports the
    lines that [OriginalDupDetect] reports (those read more than once),
    with the same counts. *)
Theorem DupDetect_counts_as_original (input : list string) :
  count <$> stdinCounts input = originalCounts input /\
  (forall x c,
     (exists d, stdinCounts input !! x = Some d /\ count d = c /\ 1 < count d) <->
     (originalCounts input !! x = Some c /\ 1 < c)).
Proof.
  assert (count <$> stdinCounts input = originalCounts input) as Heq.
  { unfold stdinCounts, originalCounts. rewrite stdin_fold_counts, fmap_empty. reflexivity. }
  split; [exact Heq|]. intros x c. rewrite <- Heq, lookup_fmap. split.
  - intros (d & -> & <- & Hgt). auto.
  - intros [Hd Hgt]. destruct (stdinCounts input !! x) as [d|]; [|discriminate].
    injection Hd as <-. eauto.
Qed.

(** ** Positions *)

Lemma positionsFrom_app x a : forall n b,
  positionsFrom n x (a ++ b)
  = positionsFrom n x a ++ positionsFrom (n + Z.of_nat (List.length a)) x b.
Proof.
  induction a as [|y a IH]; intros n b; simpl.
  - rewrite Z.add_0_r. reflexivity.
  - rewrite IH, <- app_assoc. do 3 f_equal. lia.
Qed.

Lemma positionsFrom_length x input : forall n,
  List.length (positionsFrom n x input) = occurrences x input.
Proof.
  unfold occurrences. induction input as [|y input IH]; intros n; [reflexivity|].
  simpl. rewrite length_app, IH, filter_cons.
  destruct (decide (y = x)); reflexivity.
Qed.

Lemma positionsFrom_elem x input : forall n p,
  p ∈ positionsFrom n x input <->
  n <= p /\ input !! Z.to_nat (p - n) = Some x.
Proof.
  induction input as [|y input IH]; intros n p; simpl.
  - rewrite elem_of_nil, lookup_nil. split; [contradiction | intros [_ [=]]].
  - rewrite elem_of_app, IH. split.
    + intros [Hhead|[Hle Hlook]].
      * destruct (decide (y = x)) as [->|_]; [|apply elem_of_nil in Hhead; contradiction].
        apply list_elem_of_singleton in Hhead as ->.
        split; [lia|]. rewrite Z.sub_diag. reflexivity.
      * split; [lia|].
        replace (Z.to_nat (p - n)) with (S (Z.to_nat (p - (n + 1)))) by lia.
        exact Hlook.
    + intros [Hle Hlook]. destruct (decide (p = n)) as [->|Hne].
      * left. rewrite Z.sub_diag in Hlook. simpl in Hlook. injection Hlook as ->.
        rewrite decide_True by reflexivity. left.
      * right. split; [lia|].
        replace (Z.to_nat (p - n)) with (S (Z.to_nat (p - (n + 1)))) in Hlook by lia.
        exact Hlook.
Qed.

Lemma positionsFrom_increasing x input : forall n,
  StronglySorted Z.lt (positionsFrom n x input) /\
  Forall (fun p => n <= p) (positionsFrom n x input).
Proof.
  induction input as [|y input IH]; intros n; simpl.
  - split; constructor.
  - destruct (IH (n + 1)) as [Hs Hge].
    assert (Forall (fun p => n < p) (positionsFrom (n + 1) x input)) as Hgt
      by (eapply Forall_impl; [exact Hge | simpl; intros; lia]).
    destruct (decide (y = x)); simpl.
    + split; constructor; [exact Hs | exact Hgt | lia |].
      eapply Forall_impl; [exact Hgt | simpl; intros; lia].
    + split; [exact Hs|]. eapply Forall_impl; [exact Hgt | simpl; intros; lia].
Qed.

(** ** Standard input only: the mapping *)

Lemma stdinStep_tracks done m y :
  Z.of_nat (List.length done) + 1 < 2 ^ 63 ->
  (forall x, m !! x =
     (fun ps => LineData {["stdin" := ps]} (Z.of_nat (List.length ps)))
       <$> someIfAny (positionsFrom 1 x done)) ->
  forall x, fst (stdinStep (m, wrap (1 + Z.of_nat (List.length done))) y) !! x =
     (fun ps => LineData {["stdin" := ps]} (Z.of_nat (List.length ps)))
       <$> someIfAny (positionsFrom 1 x (done ++ [y])).
Proof.
  intros Hlen Hm x. unfold stdinStep. cbn [fst].
  rewrite wrap_small by (unfold int_ok; lia).
  rewrite positionsFrom_app. cbn [positionsFrom]. rewrite app_nil_r.
  destruct (decide (y = x)) as [->|Hne].
  - rewrite lookup_insert_eq, Hm, someIfAny_snoc. cbn [fmap option_fmap option_map].
    pose proof (positionsFrom_length x done 1) as Hocc.
    pose proof (occurrences_le x done) as Hle.
    destruct (positionsFrom 1 x done) as [|p ps] eqn:Hps; cbn [someIfAny fmap option_fmap option_map].
    + reflexivity.
    + cbn [locations count]. rewrite appendAt_singleton, length_app.
      rewrite wrap_small by (unfold int_ok; simpl List.length in *; lia).
      do 2 f_equal. simpl List.length. lia.
  - rewrite lookup_insert_ne by exact Hne. rewrite app_nil_r. apply Hm.
Qed.

Lemma stdin_fold_tracks rest : forall done m,
  Z.of_nat (List.length (done ++ rest)) < 2 ^ 63 ->
  (forall x, m !! x =
     (fun ps => LineData {["stdin" := ps]} (Z.of_nat (List.length ps)))
       <$> someIfAny (positionsFrom 1 x done)) ->
  forall x,
    fst (fold_left stdinStep rest (m, wrap (1 + Z.of_nat (List.length done)))) !! x =
     (fun ps => LineData {["stdin" := ps]} (Z.of_nat (List.length ps)))
       <$> someIfAny (positionsFrom 1 x (done ++ rest)).
Proof.
  induction rest as [|y rest IH]; intros done m Hlen Hm x.
  - rewrite app_nil_r. apply Hm.
  - cbn [fold_left].
    pose proof (stdinStep_tracks done m y) as Hstep.
    destruct (stdinStep (m, wrap (1 + Z.of_nat (List.length done))) y) as [m' i'] eqn:Heq.
    assert (i' = wrap (1 + Z.of_nat (List.length (done ++ [y])))) as ->.
    { unfold stdinStep in Heq. injection Heq as _ <-.
      rewrite wrap_add_l, length_app. f_equal. simpl. lia. }
    rewrite (cons_middle y done rest), app_assoc.
    apply IH.
    + rewrite <- app_assoc. exact Hlen.
    + apply Hstep; [rewrite length_app in Hlen; simpl in Hlen; lia | exact Hm].
Qed.

(** X4. [DupDetect] keys its mapping by the lines themselves (nothing is
    hashed): a line that was never read has no entry, and the entry of a
    line that was read holds how often it was read and, under "stdin",
    exactly the numbers of the lines where it stands, in increasing
    order. *)
Theorem DupDetect_entries_exact (input : list string) (x : string) :
  Z.of_nat (List.length input) < 2 ^ 63 ->
  (x ∉ input -> stdinCounts input !! x = None) /\
  (x ∈ input ->
   exists ps,
     stdinCounts input !! x =
       Some (LineData {["stdin" := ps]} (Z.of_nat (occurrences x input))) /\
     StronglySorted Z.lt ps /\
     forall p, p ∈ ps <-> 1 <= p /\ input !! Z.to_nat (p - 1) = Some x).
Proof.
  intros Hlen.
  pose proof (stdin_fold_tracks input [] ∅ Hlen
                (fun x => eq_trans (lookup_empty x) eq_refl) x) as Hx.
  change (fst (fold_left stdinStep input (∅, wrap (1 + Z.of_nat (List.length (@nil string))))))
    with (stdinCounts input) in Hx.
  rewrite app_nil_l in Hx.
  pose proof (positionsFrom_length x input 1) as Hocc.
  split; intros Hin.
  - assert (occurrences x input = 0%nat) as Hz.
    { destruct (decide (occurrences x input = 0%nat)) as [Hz|Hpos]; [exact Hz|].
      apply occurrences_pos in Hpos. contradiction. }
    rewrite Hx. rewrite Hz in Hocc. apply length_zero_iff_nil in Hocc.
    rewrite Hocc. reflexivity.
  - exists (positionsFrom 1 x input). split; [|split].
    + rewrite Hx. apply occurrences_pos in Hin.
      destruct (positionsFrom 1 x input) as [|p ps]; simpl in *; [congruence|].
      rewrite <- Hocc. reflexivity.
    + apply positionsFrom_increasing.
    + intros p. apply positionsFrom_elem.
Qed.

(** The lines x, y, x on the standard input. *)
Lemma DupDetect_entries_exact_witness :
  Z.of_nat (List.length ["x"; "y"; "x"]) < 2 ^ 63 /\
  "x" ∈ ["x"; "y"; "x"] /\
  exists ps,
    stdinCounts ["x"; "y"; "x"] !! "x" =
      Some (LineData {["stdin" := ps]} (Z.of_nat (occurrences "x" ["x"; "y"; "x"]))) /\
    StronglySorted Z.lt ps /\
    forall p, p ∈ ps <-> 1 <= p /\ ["x"; "y"; "x"] !! Z.to_nat (p - 1) = Some "x".
Proof.
  assert (Z.of_nat (List.length ["x"; "y"; "x"]) < 2 ^ 63) as Hlen
    by (vm_compute; reflexivity).
  assert ("x" ∈ ["x"; "y"; "x"]) as Hin by left.
  split; [exact Hlen|]. split; [exact Hin|].
  exact (proj2 (DupDetect_entries_exact ["x"; "y"; "x"] "x" Hlen) Hin).
Defined.

(** ** Multi-source path: which lines an entry stands for *)

Lemma linesOf_scanLoop k f lines : forall z,
  0 <= z -> z + Z.of_nat (List.length lines) < 2 ^ 63 ->
  lineNum <$> filter (fun r => lineText r = k /\ fileName r = f) (scanLoop f z lines)
  = positionsFrom (z + 1) k (getKey <$> lines).
Proof.
  induction lines as [|text lines IH]; intros z Hz Hlen; [reflexivity|].
  cbn [scanLoop fmap list_fmap positionsFrom]. simpl List.length in Hlen.
  rewrite wrap_small by (unfold int_ok; lia).
  rewrite filter_cons. cbn [lineText fileName].
  destruct (decide (getKey text = k)) as [Hk|Hk].
  - rewrite decide_True by auto. rewrite fmap_cons. cbn [lineNum app].
    f_equal. apply IH; lia.
  - rewrite decide_False by (intros [? _]; contradiction).
    cbn [app]. apply IH; lia.
Qed.

(** X5. With pairwise distinct source names the locations of an entry
    are exact: a number is in the list kept for a file if and only if
    the line of that number in the file has the entry's key. *)
Theorem multi_locations_exact (w : world) (files : list string)
    (arr : list rawLineData) (k f : string) (d : lineData) (p : Z) :
  NoDup files ->
  f ∈ files ->
  Z.of_nat (List.length (scanned w f)) < 2 ^ 63 ->
  Arrival w files arr ->
  aggregate arr !! k = Some d ->
  p ∈ default [] (locations d !! f) <->
  1 <= p /\ exists text, scanned w f !! Z.to_nat (p - 1) = Some text /\ getKey text = k.
Proof.
  intros Hnd Hf Hlen Harr Hd.
  pose proof (Tracks_aggregate arr k) as Hk. rewrite Hd in Hk.
  destruct Hk as (_ & _ & _ & Hl). rewrite Hl, default_someIfAny.
  unfold linesOf. rewrite (Arrival_one_file w files arr k f Hnd Harr).
  rewrite decide_True by exact Hf.
  rewrite sent_scanLoop, linesOf_scanLoop by lia. change (0 + 1) with 1.
  rewrite positionsFrom_elem, list_lookup_fmap.
  split.
  - intros [Hp Hlook]. split; [exact Hp|].
    destruct (scanned w f !! Z.to_nat (p - 1)) as [text|]; simpl in Hlook; [|discriminate].
    injection Hlook as Hkey. eauto.
  - intros [Hp (text & -> & <-)]. split; [exact Hp | reflexivity].
Qed.

Lemma multi_locations_exact_witness :
  let arr := [RawLineData "x" "A" 1; RawLineData "x" "B" 1;
              RawLineData "y" "A" 2; RawLineData "x" "A" 3] in
  let d := LineData (<["A" := [1; 3]]> {["B" := [1]]}) 3 in
  NoDup ["A"; "B"] /\
  Arrival sample ["A"; "B"] arr /\
  aggregate arr !! "x" = Some d /\
  (3 ∈ default [] (locations d !! "A") <->
   1 <= 3 /\ exists text, scanned sample "A" !! Z.to_nat (3 - 1) = Some text
                          /\ getKey text = "x").
Proof.
  intros arr d.
  assert (NoDup ["A"; "B"]) as Hnd.
  { apply NoDup_cons. split; [|apply NoDup_singleton].
    intros Hin. apply list_elem_of_singleton in Hin. discriminate. }
  assert ("A" ∈ ["A"; "B"]) as Hf by left.
  assert (Z.of_nat (List.length (scanned sample "A")) < 2 ^ 63) as Hlen
    by (vm_compute; reflexivity).
  assert (Arrival sample ["A"; "B"] arr) as Harr by exact Arrival_sample_AB.
  assert (aggregate arr !! "x" = Some d) as Hd by (vm_compute; reflexivity).
  split; [exact Hnd|]. split; [exact Harr|]. split; [exact Hd|].
  exact (multi_locations_exact sample ["A"; "B"] arr "x" "A" d 3 Hnd Hf Hlen Harr Hd).
Defined.

(** ** Multi-source path: what the mapping holds *)

Lemma keyCount_elem k arr r : r ∈ arr -> lineText r = k -> keyCount k arr <> 0%nat.
Proof.
  intros Hr Hk Hz. unfold keyCount in Hz. apply length_zero_iff_nil in Hz.
  exact (filter_nil_not_elem_of _ _ r Hz Hk Hr).
Qed.

Lemma scanLoop_sends f lines text : forall z,
  text ∈ lines -> exists r, r ∈ scanLoop f z lines /\ lineText r = getKey text.
Proof.
  induction lines as [|t lines IH]; intros z Hin; [apply elem_of_nil in Hin; contradiction|].
  apply elem_of_cons in Hin as [->|Hin]; simpl.
  - eexists. split; [left | reflexivity].
  - destruct (IH (wrap (z + 1)) Hin) as (r & Hr & Hk). exists r. split; [right; exact Hr | exact Hk].
Qed.

(** X6. The mapping has an entry for exactly the keys of the lines that
    were read: the key of every line of every source that opens is
    there, and no other key is. *)
Theorem mapping_keys_are_lines_read (w : world) (files : list string)
    (arr : list rawLineData) (k : string) :
  Arrival w files arr ->
  is_Some (aggregate arr !! k) <->
  exists f text, f ∈ files /\ text ∈ scanned w f /\ k = getKey text.
Proof.
  intros Harr. split.
  - intros [d Hd]. exact (aggregate_key_origin w files arr k d Harr Hd).
  - intros (f & text & Hf & Htext & ->).
    apply (Tracks_is_Some arr _ _ (Tracks_aggregate arr)).
    destruct (scanLoop_sends f (scanned w f) text 0 Htext) as (r & Hr & Hk).
    apply (keyCount_elem _ _ r); [|exact Hk].
    rewrite (Arrival_perm _ _ _ Harr).
    apply list_elem_of_In, in_concat. exists (sent w f).
    split; apply list_elem_of_In.
    + apply list_elem_of_fmap. eauto.
    + rewrite sent_scanLoop. exact Hr.
Qed.

Lemma mapping_keys_are_lines_read_witness :
  let arr := [RawLineData "x" "A" 1; RawLineData "x" "B" 1;
              RawLineData "y" "A" 2; RawLineData "x" "A" 3] in
  Arrival sample ["A"; "B"] arr /\
  (is_Some (aggregate arr !! "y") <->
   exists f text, f ∈ ["A"; "B"] /\ text ∈ scanned sample f /\ "y" = getKey text).
Proof.
  intros arr.
  assert (Arrival sample ["A"; "B"] arr) as Harr by exact Arrival_sample_AB.
  split; [exact Harr|].
  exact (mapping_keys_are_lines_read sample ["A"; "B"] arr "y" Harr).
Defined.

Lemma numLocations_empty c : numLocations (LineData ∅ c) = 0%nat.
Proof. unfold numLocations. simpl. rewrite map_to_list_empty. reflexivity. Qed.

(** X7. Nothing empty is stored: every entry of the mapping has a count
    of at least 1, at least one file in its locations and no empty list;
    hence with a threshold of 0 or less the report leaves no entry
    out. *)
Theorem entries_never_empty (arr : list rawLineData) (k : string) (d : lineData) :
  Z.of_nat (List.length arr) < 2 ^ 63 ->
  aggregate arr !! k = Some d ->
  1 <= count d /\
  locations d <> ∅ /\
  (forall f nums, locations d !! f = Some nums -> nums <> []) /\
  (forall threshold v,
     threshold <= 0 -> Visits (aggregate arr) v -> (k, d) ∈ emitted threshold v).
Proof.
  intros Hlen Hd.
  pose proof (Tracks_aggregate arr k) as Hk. rewrite Hd in Hk.
  destruct Hk as (Hpos & Hc & Hn & Hl).
  assert (Z.of_nat (keyCount k arr) < 2 ^ 63) as Hsmall.
  { unfold keyCount. pose proof (length_filter (fun r => lineText r = k) arr). lia. }
  rewrite wrap_nat in Hc by exact Hsmall.
  assert (1 <= count d) as Hone by lia.
  split; [exact Hone|]. split; [|split].
  - intros Hempty. destruct d as [l c]. simpl in Hempty. subst l.
    rewrite numLocations_empty in Hn. congruence.
  - intros f nums Hf. rewrite Hl in Hf. apply someIfAny_Some in Hf as [-> Hne]. exact Hne.
  - intros threshold v Hth Hv. apply (emitted_iff threshold _ v k d Hv).
    split; [exact Hd | lia].
Qed.

Lemma entries_never_empty_witness :
  let arr := [RawLineData "x" "A" 1; RawLineData "x" "B" 1;
              RawLineData "y" "A" 2; RawLineData "x" "A" 3] in
  let d := LineData {["A" := [2]]} 1 in
  Z.of_nat (List.length arr) < 2 ^ 63 /\
  aggregate arr !! "y" = Some d /\
  0 <= 0 /\
  Visits (aggregate arr) (anyVisit (aggregate arr)) /\
  1 <= count d /\
  locations d <> ∅ /\
  ("y", d) ∈ emitted 0 (anyVisit (aggregate arr)).
Proof.
  intros arr d.
  assert (Z.of_nat (List.length arr) < 2 ^ 63) as Hlen by (vm_compute; reflexivity).
  assert (aggregate arr !! "y" = Some d) as Hd by (vm_compute; reflexivity).
  assert (0 <= 0) as Hth by lia.
  pose proof (Visits_anyVisit (aggregate arr)) as Hv.
  destruct (entries_never_empty arr "y" d Hlen Hd) as (Hone & Hne & _ & Hem).
  split; [exact Hlen|]. split; [exact Hd|]. split; [exact Hth|]. split; [exact Hv|].
  split; [exact Hone|]. split; [exact Hne|].
  exact (Hem 0 _ Hth Hv).
Defined.

(** ** Multi-source path: nothing to read *)

Lemma Visits_empty v : Visits ∅ v -> v = [].
Proof.
  intros [Hr _]. unfold Range in Hr. rewrite map_to_list_empty in Hr.
  apply Permutation_nil_r in Hr. destruct v; [reflexivity | discriminate].
Qed.

(** X8. When no source has a line to give (every named file is missing
    or empty, the standard input is empty), the run still returns
    normally: it prints one failure message for each file that does not
    open, in some order, then the separator line, and no entry. *)
Theorem nothing_read_reports_nothing (w : world) (threshold : Z) (files : list string)
    (r : run) :
  files <> [] ->
  (forall f, f ∈ files -> scanned w f = []) ->
  DupDetectFiles w threshold false files r ->
  result r = Returned /\
  exists errs,
    stdout r = errs ++ ["----" +:+ nl] /\
    errs ≡ₚ openError <$>
              filter (fun f => f <> "stdin" /\ os_Open w f = None) files.
Proof.
  intros Hfiles Hnone Hr.
  inversion Hr as [r' Hnil _|f0 files' r' _ Hsorted _|errs arr v _ _ Herrs Harr Hv]; subst.
  - contradiction.
  - discriminate.
  - split; [reflexivity|]. exists errs. cbn [stdout]. split.
    + assert (arr = []) as ->.
      { eapply Interleaving_all_nil; [|exact Harr].
        apply Forall_fmap, Forall_forall. intros f Hf. simpl. fold (sent w f).
        rewrite sent_scanLoop, (Hnone f Hf). reflexivity. }
      apply Visits_empty in Hv as ->. reflexivity.
    + rewrite Herrs. clear - files. induction files as [|f files IH]; [reflexivity|].
      rewrite fmap_cons, filter_cons. cbn [concat]. rewrite IH.
      unfold collectLines. destruct (String.eqb_spec f "stdin") as [->|Hne].
      * rewrite decide_False by (intros [Hne _]; contradiction). reflexivity.
      * destruct (os_Open w f) as [input|].
        -- rewrite decide_False by (intros [_ [=]]). reflexivity.
        -- rewrite decide_True by auto. reflexivity.
Qed.

(** Two missing files. *)
Lemma nothing_read_reports_nothing_witness :
  ["missing.txt"; "gone.txt"] <> [] /\
  (forall f, f ∈ ["missing.txt"; "gone.txt"] -> scanned sample f = []) /\
  exists r,
    DupDetectFiles sample 1 false ["missing.txt"; "gone.txt"] r /\
    result r = Returned /\
    exists errs,
      stdout r = errs ++ ["----" +:+ nl] /\
      errs ≡ₚ openError <$>
                filter (fun f => f <> "stdin" /\ os_Open sample f = None)
                  ["missing.txt"; "gone.txt"].
Proof.
  assert (["missing.txt"; "gone.txt"] <> []) as Hfiles by discriminate.
  assert (forall f, f ∈ ["missing.txt"; "gone.txt"] -> scanned sample f = []) as Hnone.
  { intros f Hf. apply elem_of_cons in Hf as [->|Hf]; [reflexivity|].
    apply list_elem_of_singleton in Hf as ->. reflexivity. }
  assert (DupDetectFiles sample 1 false ["missing.txt"; "gone.txt"]
            (Run (concat ((fun f => fst (collectLines sample f)) <$> ["missing.txt"; "gone.txt"])
                  ++ report 1 (anyVisit (aggregate (concat (sent sample <$> ["missing.txt"; "gone.txt"])))))
               Returned)) as Hr.
  { apply (files_many sample 1 false ["missing.txt"; "gone.txt"] _
             (concat (sent sample <$> ["missing.txt"; "gone.txt"])) (anyVisit _));
      [exact Hfiles | reflexivity | reflexivity
      | apply Interleaving_concat | apply Visits_anyVisit]. }
  split; [exact Hfiles|]. split; [exact Hnone|].
  eexists. split; [exact Hr|].
  exact (nothing_read_reports_nothing sample 1 _ _ Hfiles Hnone Hr).
Defined.

(** ** Standard input as a source of the multi-source path *)

Lemma getKey_short t : len t < 32 -> getKey t = t.
Proof. intros Ht. unfold getKey. rewrite (proj2 (Z.ltb_lt _ _) Ht). reflexivity. Qed.

Lemma consume_stdinStep m t n :
  getKey t = t ->
  consume m (RawLineData (getKey t) "stdin" n) = fst (stdinStep (m, n) t).
Proof. intros Ht. unfold consume, stdinStep. simpl. rewrite Ht. reflexivity. Qed.

Lemma fold_consume_stdin lines : forall m z,
  Forall (fun t => len t < 32) lines ->
  fold_left consume (scanLoop "stdin" z lines) m
  = fst (fold_left stdinStep lines (m, wrap (z + 1))).
Proof.
  induction lines as [|t lines IH]; intros m z Hshort; [reflexivity|].
  apply Forall_cons in Hshort as [Ht Hshort].
  cbn [scanLoop fold_left].
  rewrite consume_stdinStep by (apply getKey_short, Ht).
  rewrite (IH _ _ Hshort). reflexivity.
Qed.

(** X9. On lines shorter than 32 bytes the two ways of reading the
    standard input agree: [DupDetectFiles] with the single source
    "stdin" ends with the mapping that [DupDetect] builds, the same
    keys, counts and line numbers. *)
Theorem stdin_source_matches_DupDetect (w : world) (arr : list rawLineData) :
  Forall (fun t => len t < 32) (os_Stdin w) ->
  Arrival w ["stdin"] arr ->
  aggregate arr = stdinCounts (os_Stdin w).
Proof.
  intros Hshort Harr.
  assert (arr = sent w "stdin") as ->.
  { unfold Arrival in Harr. simpl in Harr.
    apply (Interleaving_one [] []) in Harr; [exact Harr | constructor | constructor]. }
  unfold aggregate, stdinCounts. rewrite sent_scanLoop.
  unfold scanned. simpl. rewrite (fold_consume_stdin _ _ _ Hshort). reflexivity.
Qed.

Lemma stdin_source_matches_DupDetect_witness :
  let w := World (fun _ => None) ["x"; "y"; "x"] in
  Forall (fun t => len t < 32) (os_Stdin w) /\
  Arrival w ["stdin"] (sent w "stdin") /\
  aggregate (sent w "stdin") = stdinCounts (os_Stdin w).
Proof.
  intros w.
  assert (Forall (fun t => len t < 32) (os_Stdin w)) as Hshort
    by (repeat apply Forall_cons_2; try apply Forall_nil_2; vm_compute; reflexivity).
  assert (Arrival w ["stdin"] (sent w "stdin")) as Harr
    by apply (Interleaving_concat [sent w "stdin"]).
  split; [exact Hshort|]. split; [exact Harr|].
  exact (stdin_source_matches_DupDetect w _ Hshort Harr).
Defined.

(** ** Sorted fast path: counts *)

Lemma sortedStep_counts f st x st' :
  Safe st ->
  sortedStep f st x = Ok st' ->
  count <$> counts st' = originalStep (count <$> counts st) x.
Proof.
  intros Hsafe Hstep. unfold originalStep. rewrite lookup_fmap.
  destruct (counts st !! x) as [d|] eqn:Hx.
  - rewrite (sortedStep_again f st x d Hx) in Hstep. injection Hstep as <-.
    cbn [counts]. rewrite fmap_insert. reflexivity.
  - destruct (decide (prevInputText st = EmptyString)) as [Hp|Hp].
    + rewrite (sortedStep_first f st x Hx Hp) in Hstep. injection Hstep as <-.
      cbn [counts]. rewrite fmap_insert. reflexivity.
    + destruct Hsafe as [Hp'|[p Hprev]]; [contradiction|].
      rewrite (sortedStep_next f st x p Hx Hp Hprev) in Hstep. injection Hstep as <-.
      cbn [counts]. rewrite !fmap_insert. cbn [count].
      rewrite (insert_id (count <$> counts st)); [reflexivity|].
      rewrite lookup_fmap, Hprev. reflexivity.
Qed.

Lemma sortedLoop_counts f input : forall st st',
  Safe st ->
  sortedLoop f st input = Ok st' ->
  count <$> counts st' = fold_left originalStep input (count <$> counts st).
Proof.
  induction input as [|x input IH]; intros st st' Hsafe Hloop; cbn [sortedLoop] in Hloop.
  - injection Hloop as <-. reflexivity.
  - destruct (sortedStep_ok f st x Hsafe) as (st1 & Hstep & Hsafe1 & _).
    rewrite Hstep in Hloop. cbn [bind] in Hloop.
    rewrite (IH st1 st' Hsafe1 Hloop). cbn [fold_left].
    rewrite (sortedStep_counts f st x st1 Hsafe Hstep). reflexivity.
Qed.

(** ** Sorted fast path: where an entry starts *)

Lemma sortedStep_new_entry f st x :
  Safe st ->
  counts st !! x = None ->
  exists st',
    sortedStep f st x = Ok st' /\
    Safe st' /\
    prevInputText st' = x /\
    counts st' !! x = Some (LineData {[f := [i st]]} 1).
Proof.
  unfold Safe. intros Hsafe Hx.
  destruct (decide (prevInputText st = EmptyString)) as [Hp|Hp].
  - eexists. split; [apply (sortedStep_first f st x Hx Hp)|].
    cbn [counts prevInputText].
    split; [right; rewrite lookup_insert_eq; eauto|].
    split; [reflexivity | apply lookup_insert_eq].
  - destruct Hsafe as [Hp'|[p Hprev]]; [contradiction|].
    eexists. split; [apply (sortedStep_next f st x p Hx Hp Hprev)|].
    cbn [counts prevInputText].
    split; [right; rewrite lookup_insert_eq; eauto|].
    split; [reflexivity | apply lookup_insert_eq].
Qed.

(** Whatever a step does to an entry, the first number of its list
    stays. *)
Lemma sortedStep_keeps_head f st x st' k d a rest :
  Safe st ->
  sortedStep f st x = Ok st' ->
  counts st !! k = Some d ->
  locations d = {[f := a :: rest]} ->
  exists d' rest', counts st' !! k = Some d' /\ locations d' = {[f := a :: rest']}.
Proof.
  intros Hsafe Hstep Hk Hl.
  destruct (counts st !! x) as [dx|] eqn:Hx.
  - rewrite (sortedStep_again f st x dx Hx) in Hstep. injection Hstep as <-. cbn [counts].
    destruct (decide (x = k)) as [->|Hne].
    + rewrite lookup_insert_eq. assert (dx = d) as -> by congruence.
      eexists _, rest. split; [reflexivity | exact Hl].
    + rewrite lookup_insert_ne by exact Hne. eauto.
  - assert (x <> k) as Hne by congruence.
    destruct (decide (prevInputText st = EmptyString)) as [Hp|Hp].
    + rewrite (sortedStep_first f st x Hx Hp) in Hstep. injection Hstep as <-. cbn [counts].
      rewrite lookup_insert_ne by exact Hne. eauto.
    + destruct Hsafe as [Hp'|[p Hprev]]; [contradiction|].
      rewrite (sortedStep_next f st x p Hx Hp Hprev) in Hstep. injection Hstep as <-.
      cbn [counts]. rewrite lookup_insert_ne by exact Hne.
      destruct (decide (prevInputText st = k)) as [Heq|Hne'].
      * rewrite Heq in *. rewrite lookup_insert_eq. assert (p = d) as -> by congruence.
        eexists _, (rest ++ [wrap (i st - 1)]). split; [reflexivity|].
        cbn [locations]. rewrite Hl, appendAt_singleton. reflexivity.
      * rewrite lookup_insert_ne by exact Hne'. eauto.
Qed.

Lemma sortedLoop_keeps_head f input : forall st st' k d a rest,
  Safe st ->
  sortedLoop f st input = Ok st' ->
  counts st !! k = Some d ->
  locations d = {[f := a :: rest]} ->
  exists d' rest', counts st' !! k = Some d' /\ locations d' = {[f := a :: rest']}.
Proof.
  induction input as [|x input IH]; intros st st' k d a rest Hsafe Hloop Hk Hl;
    cbn [sortedLoop] in Hloop.
  - injection Hloop as <-. eauto.
  - destruct (sortedStep_ok f st x Hsafe) as (st1 & Hstep & Hsafe1 & _).
    rewrite Hstep in Hloop. cbn [bind] in Hloop.
    destruct (sortedStep_keeps_head f st x st1 k d a rest Hsafe Hstep Hk Hl)
      as (d1 & rest1 & Hk1 & Hl1).
    exact (IH st1 st' k d1 a rest1 Hsafe1 Hloop Hk1 Hl1).
Qed.

(** X10. The scan loop of [DupDetectSorted] ends without a panic on
    every input, sorted or not; each line read, and no other, has an
    entry; the entry's count is the number of times the line was read
    and its list begins with the number of the line where it was first
    read. *)
Theorem sorted_counts_and_starts (f : string) (input : list string) :
  Z.of_nat (List.length input) < 2 ^ 63 ->
  exists st,
    sortedLoop f sortedInit input = Ok st /\
    (forall x, is_Some (counts st !! x) <-> x ∈ input) /\
    (forall x d, counts st !! x = Some d ->
       count d = Z.of_nat (occurrences x input) /\
       exists pre post rest,
         input = pre ++ x :: post /\ (x ∉ pre) /\
         locations d = {[f := (Z.of_nat (List.length pre) + 1) :: rest]}).
Proof.
  intros Hlen.
  destruct (sortedLoop_ok f input sortedInit 1 Safe_init eq_refl)
    as (st & Hloop & Hsafe & _ & Hdom).
  exists st. split; [exact Hloop|]. split.
  - intros x. rewrite Hdom. cbn [counts sortedInit]. rewrite lookup_empty. split.
    + intros [[d [=]]|Hin]. exact Hin.
    + auto.
  - intros x d Hd.
    assert (x ∈ input) as Hin.
    { assert (is_Some (counts st !! x)) as Hs by eauto.
      apply Hdom in Hs as [[d' Hd']|Hin]; [|exact Hin].
      cbn in Hd'. rewrite lookup_empty in Hd'. discriminate. }
    split.
    + pose proof (sortedLoop_counts f input sortedInit st Safe_init Hloop) as Hc.
      cbn [counts sortedInit] in Hc. rewrite fmap_empty in Hc.
      fold (originalCounts input) in Hc.
      assert (count <$> counts st !! x = originalCounts input !! x) as Hcx
        by (rewrite <- Hc, lookup_fmap; reflexivity).
      rewrite Hd, originalCounts_lookup in Hcx. cbn in Hcx.
      apply occurrences_pos in Hin. rewrite decide_False in Hcx by exact Hin.
      injection Hcx as ->. apply wrap_nat.
      pose proof (occurrences_le x input). lia.
    + apply list_elem_of_split_l in Hin as (pre & post & -> & Hpre).
      exists pre, post.
      rewrite sortedLoop_app in Hloop.
      destruct (sortedLoop_ok f pre sortedInit 1 Safe_init eq_refl)
        as (st1 & Hloop1 & Hsafe1 & Hi1 & Hdom1).
      rewrite Hloop1 in Hloop. cbn [bind sortedLoop] in Hloop.
      assert (counts st1 !! x = None) as Hnone.
      { apply eq_None_not_Some. rewrite Hdom1. intros [[d' Hd']|Hin]; [|contradiction].
        cbn in Hd'. rewrite lookup_empty in Hd'. discriminate. }
      destruct (sortedStep_new_entry f st1 x Hsafe1 Hnone)
        as (st2 & Hstep & Hsafe2 & _ & Hentry).
      rewrite Hstep in Hloop. cbn [bind] in Hloop.
      destruct (sortedLoop_keeps_head f post st2 st x _ (i st1) [] Hsafe2 Hloop Hentry eq_refl)
        as (d' & rest & Hd' & Hl').
      assert (d' = d) as -> by congruence.
      exists rest. split; [reflexivity|]. split; [exact Hpre|].
      rewrite Hl', Hi1, wrap_small.
      * replace (1 + Z.of_nat (List.length pre)) with (Z.of_nat (List.length pre) + 1)
          by lia. reflexivity.
      * unfold int_ok. rewrite length_app in Hlen. simpl in Hlen. lia.
Qed.

(** An unsorted input: a, b, a. *)
Lemma sorted_counts_and_starts_witness :
  Z.of_nat (List.length ["a"; "b"; "a"]) < 2 ^ 63 /\
  exists st,
    sortedLoop "f" sortedInit ["a"; "b"; "a"] = Ok st /\
    (forall x, is_Some (counts st !! x) <-> x ∈ ["a"; "b"; "a"]) /\
    (forall x d, counts st !! x = Some d ->
       count d = Z.of_nat (occurrences x ["a"; "b"; "a"]) /\
       exists pre post rest,
         ["a"; "b"; "a"] = pre ++ x :: post /\ (x ∉ pre) /\
         locations d = {["f" := (Z.of_nat (List.length pre) + 1) :: rest]}).
Proof.
  assert (Z.of_nat (List.length ["a"; "b"; "a"]) < 2 ^ 63) as Hlen
    by (vm_compute; reflexivity).
  split; [exact Hlen|].
  exact (sorted_counts_and_starts "f" ["a"; "b"; "a"] Hlen).
Defined.

(** ** Sorted fast path: closed runs *)

(** An entry that is not the open run and whose line is not read again
    is left as it is. *)
Lemma sortedLoop_untouched f input : forall st k d,
  Safe st ->
  counts st !! k = Some d ->
  k <> prevInputText st ->
  k ∉ input ->
  exists st', sortedLoop f st input = Ok st' /\ counts st' !! k = Some d.
Proof.
  induction input as [|x input IH]; intros st k d Hsafe Hk Hprev Hin; cbn [sortedLoop].
  - eauto.
  - apply not_elem_of_cons in Hin as [Hne Hin].
    destruct (sortedStep_ok f st x Hsafe) as (st1 & -> & Hsafe1 & _ & Hp1 & _ & Hkeep).
    cbn [bind]. apply (IH st1 k d Hsafe1); [apply Hkeep; auto | | exact Hin].
    rewrite Hp1. destruct (counts st !! x); congruence.
Qed.

(** X11. A run that is followed by a new line is closed correctly: when
    a non-empty line stands on consecutive lines only and the line after
    them has not been read before, its entry ends with its count, the
    number of its first line and the number of its last line, and the
    report can print it. *)
Theorem sorted_run_boundaries (f : string) (pre post : list string) (x y : string)
    (n : nat) :
  x ∉ pre ->
  x ∉ post ->
  x <> EmptyString ->
  y <> x ->
  y ∉ pre ->
  Z.of_nat (List.length pre) + Z.of_nat n + 2 < 2 ^ 63 ->
  exists st,
    sortedLoop f sortedInit (pre ++ replicate (S n) x ++ y :: post) = Ok st /\
    counts st !! x =
      Some (LineData {[f := [Z.of_nat (List.length pre) + 1;
                             Z.of_nat (List.length pre) + Z.of_nat n + 1]]}
              (Z.of_nat n + 1)) /\
    printSorted f x (LineData {[f := [Z.of_nat (List.length pre) + 1;
                                      Z.of_nat (List.length pre) + Z.of_nat n + 1]]}
                       (Z.of_nat n + 1))
    = Ok (sprintf_d (Z.of_nat n + 1) +:+ tab +:+ x +:+ tab +:+ "start: "
          +:+ sprintf_d (Z.of_nat (List.length pre) + 1) +:+ ", end: "
          +:+ sprintf_d (Z.of_nat (List.length pre) + Z.of_nat n + 1) +:+ nl).
Proof.
  intros Hpre Hpost Hx Hyx Hy Hlen.
  destruct (sorted_final_run_left_open f pre x n Hpre)
    as (st1 & Hloop1 & Hsafe1 & Hp1 & Hentry).
  destruct (sortedLoop_ok f (pre ++ replicate (S n) x) sortedInit 1 Safe_init eq_refl)
    as (st1' & Hloop1' & _ & Hi1 & Hdom1).
  assert (st1' = st1) as -> by congruence.
  rewrite length_app, length_replicate in Hi1.
  rewrite !wrap_small in Hentry by (unfold int_ok; lia).
  rewrite wrap_small in Hi1 by (unfold int_ok; lia).
  assert (counts st1 !! y = None) as Hnone.
  { apply eq_None_not_Some. rewrite Hdom1. intros [[d' Hd']|Hin].
    - cbn in Hd'. rewrite lookup_empty in Hd'. discriminate.
    - apply elem_of_app in Hin as [Hin|Hin]; [contradiction|].
      apply elem_of_replicate in Hin as [Heq _]. contradiction. }
  assert (prevInputText st1 <> EmptyString) as Hp1' by congruence.
  rewrite <- Hp1 in Hentry.
  pose proof (sortedStep_next f st1 y _ Hnone Hp1' Hentry) as Hstep.
  rewrite Hp1 in Hstep, Hentry. cbn [locations count] in Hstep.
  rewrite appendAt_singleton in Hstep. cbn [app] in Hstep.
  rewrite Hi1 in Hstep. rewrite wrap_small in Hstep by (unfold int_ok; lia).
  assert (1 + Z.of_nat (List.length pre) = Z.of_nat (List.length pre) + 1) as E1 by lia.
  assert (1 + Z.of_nat (List.length pre + S n) - 1
          = Z.of_nat (List.length pre) + Z.of_nat n + 1) as E2 by lia.
  assert (Z.of_nat (S n) = Z.of_nat n + 1) as E3 by lia.
  rewrite E1, E2, E3 in Hstep.
  match type of Hstep with _ = Ok ?s => remember s as st2 eqn:Hst2 end.
  assert (Safe st2) as Hsafe2.
  { right. rewrite Hst2. cbn [counts prevInputText]. rewrite lookup_insert_eq. eauto. }
  assert (counts st2 !! x =
            Some (LineData {[f := [Z.of_nat (List.length pre) + 1;
                                   Z.of_nat (List.length pre) + Z.of_nat n + 1]]}
                    (Z.of_nat n + 1))) as Hx2.
  { rewrite Hst2. cbn [counts]. rewrite lookup_insert_ne by exact Hyx.
    apply lookup_insert_eq. }
  destruct (sortedLoop_untouched f post st2 x _ Hsafe2 Hx2) as (st & Hloop & Hxst).
  { rewrite Hst2. cbn [prevInputText]. congruence. }
  { exact Hpost. }
  exists st. split; [|split; [exact Hxst | apply printSorted_closed]].
  rewrite app_assoc, sortedLoop_app, Hloop1. cbn [bind sortedLoop].
  rewrite Hstep. cbn [bind]. exact Hloop.
Qed.

(** The run of b on lines 4 and 5 of a, a, a, b, b, c, d. *)
Lemma sorted_run_boundaries_witness :
  ("b" ∉ ["a"; "a"; "a"]) /\
  ("b" ∉ ["d"]) /\
  "b" <> EmptyString /\
  "c" <> "b" /\
  ("c" ∉ ["a"; "a"; "a"]) /\
  Z.of_nat (List.length ["a"; "a"; "a"]) + Z.of_nat 1 + 2 < 2 ^ 63 /\
  exists st,
    sortedLoop "f" sortedInit (["a"; "a"; "a"] ++ replicate 2 "b" ++ "c" :: ["d"]) = Ok st /\
    counts st !! "b" = Some (LineData {["f" := [4; 5]]} 2).
Proof.
  assert ("b" ∉ ["a"; "a"; "a"]) as Hpre
    by (intros Hin; repeat (apply elem_of_cons in Hin as [[=]|Hin]); apply elem_of_nil in Hin; exact Hin).
  assert ("b" ∉ ["d"]) as Hpost
    by (intros Hin; apply list_elem_of_singleton in Hin; discriminate).
  assert ("b" <> EmptyString) as Hx by discriminate.
  assert ("c" <> "b") as Hyx by discriminate.
  assert ("c" ∉ ["a"; "a"; "a"]) as Hy
    by (intros Hin; repeat (apply elem_of_cons in Hin as [[=]|Hin]); apply elem_of_nil in Hin; exact Hin).
  assert (Z.of_nat (List.length ["a"; "a"; "a"]) + Z.of_nat 1 + 2 < 2 ^ 63) as Hlen
    by (vm_compute; reflexivity).
  repeat (split; [assumption|]).
  destruct (sorted_run_boundaries "f" ["a"; "a"; "a"] ["d"] "b" "c" 1
              Hpre Hpost Hx Hyx Hy Hlen) as (st & Hloop & Hentry & _).
  exists st. split; [exact Hloop | exact Hentry].
Defined.

(** ** Sorted fast path: when the report returns *)

Lemma printSorted_ok_iff f line d :
  (exists text, printSorted f line d = Ok text) <->
  (2 <= List.length (default [] (locations d !! f)))%nat.
Proof.
  unfold printSorted. destruct (default [] (locations d !! f)) as [|a [|b l]]; simpl.
  - split; [intros [text [=]] | lia].
  - split; [intros [text [=]] | lia].
  - split; [lia | eauto].
Qed.

(** X12. The report of the sorted path returns normally exactly when
    every entry above the threshold has at least two line numbers for
    the file; otherwise reading the end boundary panics, in whatever
    order the entries are visited. *)
Theorem sorted_report_returns_iff (w : world) (threshold : Z) (f : string)
    (input : list string) (st : sortedState) (r : run) :
  os_Open w f = Some input ->
  sortedLoop f sortedInit input = Ok st ->
  DupDetectSorted w threshold f r ->
  result r = Returned <->
  (forall x d, counts st !! x = Some d -> threshold < count d ->
     (2 <= List.length (default [] (locations d !! f)))%nat).
Proof.
  intros Hopen Hloop Hr.
  inversion Hr as [Hnone|input' msg Hin Hpanic|input' st' kvs Hin Hst Hkvs]; subst.
  - congruence.
  - assert (input' = input) as -> by congruence. congruence.
  - assert (input' = input) as -> by congruence.
    assert (st' = st) as -> by congruence. cbn [result].
    unfold Range in Hkvs. split.
    + intros Hret x d Hd Hlt.
      pose proof (sortedReport_returned threshold f kvs Hret) as Hall.
      assert ((x, d) ∈ filter (fun e => threshold < count (snd e)) kvs) as Hq.
      { apply list_elem_of_filter. split; [exact Hlt|].
        rewrite Hkvs. apply elem_of_map_to_list, Hd. }
      apply list_elem_of_lookup in Hq as [j Hj].
      destruct (Forall2_lookup_l _ _ _ _ _ Hall Hj) as (text & _ & Htext).
      apply (printSorted_ok_iff f x d). eauto.
    + intros Hall. rewrite sortedReport_all_ok; [reflexivity|].
      apply Forall_forall. intros [x d] Hin' Hlt. cbn [fst snd] in *.
      apply printSorted_ok_iff. apply (Hall x d); [|exact Hlt].
      apply elem_of_map_to_list. rewrite <- Hkvs. exact Hin'.
Qed.

(** The file sorteda at thresholds 1 (returns) and 0 (panics on c). *)
Lemma sorted_report_returns_iff_witness :
  os_Open sample "sorteda" = Some ["a"; "a"; "a"; "b"; "b"; "c"] /\
  exists st r,
    sortedLoop "sorteda" sortedInit ["a"; "a"; "a"; "b"; "b"; "c"] = Ok st /\
    DupDetectSorted sample 0 "sorteda" r /\
    (result r = Returned <->
     (forall x d, counts st !! x = Some d -> 0 < count d ->
        (2 <= List.length (default [] (locations d !! "sorteda")))%nat)) /\
    result r <> Returned.
Proof.
  assert (os_Open sample "sorteda" = Some ["a"; "a"; "a"; "b"; "b"; "c"]) as Hopen
    by reflexivity.
  pose proof (sorted_example_state "sorteda") as Hloop.
  split; [exact Hopen|]. eexists. eexists.
  assert (DupDetectSorted sample 0 "sorteda"
            (Run (nl :: stdout (sortedReport 0 "sorteda" (map_to_list _)))
                 (result (sortedReport 0 "sorteda" (map_to_list _))))) as Hr
    by (eapply sorted_report; [exact Hopen | exact Hloop | unfold Range; reflexivity]).
  pose proof (sorted_report_returns_iff sample 0 "sorteda" _ _ _ Hopen Hloop Hr) as Hiff.
  split; [exact Hloop|]. split; [exact Hr|]. split; [exact Hiff|].
  intros Hret.
  pose proof (proj1 Hiff Hret "c" (LineData {["sorteda" := [6]]} 1) eq_refl
                ltac:(simpl; lia)) as Hc.
  cbn [locations] in Hc. rewrite lookup_singleton_eq in Hc. simpl in Hc. lia.
Defined.

Lemma sortedReport_none threshold f kvs :
  Forall (fun e => count (snd e) <= threshold) kvs ->
  sortedReport threshold f kvs = Run [] Returned.
Proof.
  induction 1 as [|[line d] kvs Hd _ IH]; [reflexivity|].
  cbn [sortedReport]. cbn [snd] in Hd.
  destruct (Z.gtb_spec (count d) threshold); [lia | exact IH].
Qed.

(** X13. When the threshold is at least the number of lines of the file
    (an empty file with any threshold from 0 included), nothing
    qualifies: the sorted path prints the empty line only and returns,
    without touching any list. *)
Theorem sorted_report_quiet (w : world) (threshold : Z) (f : string)
    (input : list string) (r : run) :
  os_Open w f = Some input ->
  Z.of_nat (List.length input) <= threshold ->
  threshold < 2 ^ 63 ->
  DupDetectSorted w threshold f r ->
  r = Run [nl] Returned.
Proof.
  intros Hopen Hth Hint Hr.
  destruct (sortedLoop_ok f input sortedInit 1 Safe_init eq_refl)
    as (st & Hloop & _ & _ & _).
  pose proof (sortedLoop_counts f input sortedInit st Safe_init Hloop) as Hc.
  cbn [counts sortedInit] in Hc. rewrite fmap_empty in Hc.
  fold (originalCounts input) in Hc.
  inversion Hr as [Hnone|input' msg Hin Hpanic|input' st' kvs Hin Hst Hkvs]; subst.
  - congruence.
  - assert (input' = input) as -> by congruence. congruence.
  - assert (input' = input) as -> by congruence.
    assert (st' = st) as -> by congruence.
    rewrite sortedReport_none; [reflexivity|].
    apply Forall_forall. intros [x d] Hin'. cbn [snd].
    unfold Range in Hkvs. rewrite Hkvs in Hin'. apply elem_of_map_to_list in Hin'.
    assert (count <$> counts st !! x = originalCounts input !! x) as Hcx
      by (rewrite <- Hc, lookup_fmap; reflexivity).
    rewrite Hin', originalCounts_lookup in Hcx. cbn in Hcx.
    pose proof (occurrences_le x input) as Hle.
    destruct (decide (occurrences x input = 0%nat)); [discriminate|].
    injection Hcx as ->. rewrite wrap_nat by lia. lia.
Qed.

(** The file aa = a, a, which panics at threshold 1, at threshold 2. *)
Lemma sorted_report_quiet_witness :
  os_Open sample "aa" = Some ["a"; "a"] /\
  Z.of_nat (List.length ["a"; "a"]) <= 2 /\
  2 < 2 ^ 63 /\
  exists r, DupDetectSorted sample 2 "aa" r /\ r = Run [nl] Returned.
Proof.
  assert (os_Open sample "aa" = Some ["a"; "a"]) as Hopen by reflexivity.
  assert (Z.of_nat (List.length ["a"; "a"]) <= 2) as Hth by (vm_compute; discriminate).
  assert (2 < 2 ^ 63) as Hint by (vm_compute; reflexivity).
  destruct (sortedLoop_ok "aa" ["a"; "a"] sortedInit 1 Safe_init eq_refl)
    as (st & Hloop & _).
  assert (DupDetectSorted sample 2 "aa"
            (Run (nl :: stdout (sortedReport 2 "aa" (map_to_list (counts st))))
                 (result (sortedReport 2 "aa" (map_to_list (counts st)))))) as Hr
    by (eapply sorted_report; [exact Hopen | exact Hloop | unfold Range; reflexivity]).
  split; [exact Hopen|]. split; [exact Hth|]. split; [exact Hint|].
  eexists. split; [exact Hr|].
  exact (sorted_report_quiet sample 2 "aa" ["a"; "a"] _ Hopen Hth Hint Hr).
Defined.

(** ** Reports of the two counters of the standard input *)

Lemma stdinCounts_lookup input x :
  Z.of_nat (List.length input) < 2 ^ 63 ->
  stdinCounts input !! x =
    (fun ps => LineData {["stdin" := ps]} (Z.of_nat (List.length ps)))
      <$> someIfAny (positionsFrom 1 x input).
Proof.
  intros Hlen.
  exact (stdin_fold_tracks input [] ∅ Hlen
           (fun x => eq_trans (lookup_empty x) eq_refl) x).
Qed.

Lemma occurrences_inj_pair input :
  Inj (=) (=) (fun x : string => (x, Z.of_nat (occurrences x input))).
Proof. intros x y [= ->]. reflexivity. Qed.

(** The original counter's map, listed: one pair for each distinct
    line. *)
Lemma originalCounts_to_list input :
  Z.of_nat (List.length input) < 2 ^ 63 ->
  map_to_list (originalCounts input)
  ≡ₚ (fun x => (x, Z.of_nat (occurrences x input))) <$> remove_dups input.
Proof.
  intros Hlen. apply NoDup_Permutation.
  - apply NoDup_map_to_list.
  - apply (@NoDup_fmap_2 _ _ _ (occurrences_inj_pair input)), NoDup_remove_dups.
  - intros [x n]. rewrite elem_of_map_to_list, originalCounts_lookup, list_elem_of_fmap.
    pose proof (occurrences_le x input) as Hle. split.
    + destruct (decide (occurrences x input = 0%nat)) as [|Hpos]; [discriminate|].
      intros [= <-]. exists x. split; [rewrite wrap_nat by lia; reflexivity|].
      apply elem_of_remove_dups, occurrences_pos, Hpos.
    + intros (y & [= -> ->] & Hin).
      apply (proj1 (elem_of_remove_dups _ _)) in Hin.
      apply (proj2 (occurrences_pos _ _)) in Hin.
      rewrite decide_False by exact Hin. rewrite wrap_nat by lia. reflexivity.
Qed.

Lemma printOriginal_listed input (l : list string) :
  flat_map printOriginal ((fun x => (x, Z.of_nat (occurrences x input))) <$> l)
  = (fun x => sprintf_d (Z.of_nat (occurrences x input)) +:+ tab +:+ x +:+ nl)
      <$> filter (fun x => (1 < occurrences x input)%nat) l.
Proof.
  induction l as [|x l IH]; [reflexivity|].
  rewrite fmap_cons, filter_cons. cbn [flat_map]. rewrite IH.
  unfold printOriginal. cbn [fst snd].
  destruct (Z.gtb_spec (Z.of_nat (occurrences x input)) 1),
    (decide (1 < occurrences x input)%nat); first [reflexivity | lia].
Qed.

(** X14. [OriginalDupDetect] returns normally and its output is, in some
    order, exactly one line for each distinct line read more than once,
    holding the number of its occurrences and the line; nothing else is
    printed and no line is printed twice. *)
Theorem OriginalDupDetect_reports_repeated (w : world) (r : run) :
  Z.of_nat (List.length (os_Stdin w)) < 2 ^ 63 ->
  OriginalDupDetect w r ->
  result r = Returned /\
  stdout r
  ≡ₚ (fun x => sprintf_d (Z.of_nat (occurrences x (os_Stdin w))) +:+ tab +:+ x +:+ nl)
       <$> filter (fun x => (1 < occurrences x (os_Stdin w))%nat)
             (remove_dups (os_Stdin w)).
Proof.
  intros Hlen Hr. destruct Hr as [kvs Hkvs]. unfold Range in Hkvs.
  split; [reflexivity|]. cbn [stdout].
  rewrite <- printOriginal_listed.
  apply Permutation_flat_map.
  rewrite Hkvs. apply originalCounts_to_list, Hlen.
Qed.

Lemma OriginalDupDetect_reports_repeated_witness :
  let w := World (fun _ => None) ["x"; "y"; "x"; "z"; "z"] in
  let r := Run (flat_map printOriginal (map_to_list (originalCounts (os_Stdin w)))) Returned in
  Z.of_nat (List.length (os_Stdin w)) < 2 ^ 63 /\
  OriginalDupDetect w r /\
  result r = Returned /\
  stdout r ≡ₚ ["2" +:+ tab +:+ "x" +:+ nl; "2" +:+ tab +:+ "z" +:+ nl].
Proof.
  intros w r.
  assert (Z.of_nat (List.length (os_Stdin w)) < 2 ^ 63) as Hlen by (vm_compute; reflexivity).
  assert (OriginalDupDetect w r) as Hr by (constructor; unfold Range; reflexivity).
  split; [exact Hlen|]. split; [exact Hr|].
  destruct (OriginalDupDetect_reports_repeated w r Hlen Hr) as [Hres Hout].
  split; [exact Hres|]. rewrite Hout. vm_compute. reflexivity.
Defined.

Lemma stdin_entry_inj_pair input :
  Inj (=) (=)
    (fun x : string =>
       (x, LineData {["stdin" := positionsFrom 1 x input]}
             (Z.of_nat (occurrences x input)))).
Proof. intros x y [= -> _]. reflexivity. Qed.

(** The mapping of [DupDetect], listed: one entry for each distinct
    line. *)
Lemma stdinCounts_to_list input :
  Z.of_nat (List.length input) < 2 ^ 63 ->
  map_to_list (stdinCounts input)
  ≡ₚ (fun x => (x, LineData {["stdin" := positionsFrom 1 x input]}
                      (Z.of_nat (occurrences x input))))
       <$> remove_dups input.
Proof.
  intros Hlen. apply NoDup_Permutation.
  - apply NoDup_map_to_list.
  - apply (@NoDup_fmap_2 _ _ _ (stdin_entry_inj_pair input)), NoDup_remove_dups.
  - intros [x d].
    rewrite elem_of_map_to_list, (stdinCounts_lookup _ x Hlen), list_elem_of_fmap.
    pose proof (positionsFrom_length x input 1) as Hocc. split.
    + destruct (someIfAny (positionsFrom 1 x input)) as [ps|] eqn:Hps; [|discriminate].
      apply someIfAny_Some in Hps as [-> Hne].
      cbn [fmap option_fmap option_map]. intros [= <-]. exists x.
      split; [rewrite Hocc; reflexivity|].
      apply elem_of_remove_dups, occurrences_pos. rewrite <- Hocc. intros Hz.
      apply length_zero_iff_nil in Hz. contradiction.
    + intros (y & [= -> ->] & Hin).
      apply (proj1 (elem_of_remove_dups _ _)) in Hin.
      apply (proj2 (occurrences_pos _ _)) in Hin.
      pose proof (positionsFrom_length y input 1) as Hocc'.
      rewrite <- Hocc' in *.
      destruct (positionsFrom 1 y input); [contradiction | reflexivity].
Qed.

Lemma printStdin_listed threshold input (l : list string) :
  flat_map (printStdin threshold)
    ((fun x => (x, LineData {["stdin" := positionsFrom 1 x input]}
                     (Z.of_nat (occurrences x input)))) <$> l)
  = (fun x => sprintf_d (Z.of_nat (occurrences x input)) +:+ tab +:+ x +:+ tab
              +:+ sprintf_v (positionsFrom 1 x input) +:+ nl)
      <$> filter (fun x => threshold < Z.of_nat (occurrences x input)) l.
Proof.
  induction l as [|x l IH]; [reflexivity|].
  rewrite fmap_cons, filter_cons. cbn [flat_map]. rewrite IH.
  unfold printStdin. cbn [fst snd count locations].
  rewrite lookup_singleton_eq. cbn [default].
  destruct (Z.gtb_spec (Z.of_nat (occurrences x input)) threshold),
    (decide (threshold < Z.of_nat (occurrences x input))); first [reflexivity | lia].
Qed.

(** X15. [DupDetect] returns normally; after the empty line its output
    is, in some order, exactly one line for each distinct line read more
    often than the threshold, holding the number of its occurrences, its
    text as read and the numbers of all the lines where it stands;
    nothing else is printed and no line is printed twice. *)
Theorem DupDetect_reports_above_threshold (w : world) (threshold : Z) (r : run) :
  Z.of_nat (List.length (os_Stdin w)) < 2 ^ 63 ->
  DupDetect w threshold r ->
  result r = Returned /\
  exists body,
    stdout r = nl :: body /\
    body
    ≡ₚ (fun x => sprintf_d (Z.of_nat (occurrences x (os_Stdin w))) +:+ tab +:+ x +:+ tab
                 +:+ sprintf_v (positionsFrom 1 x (os_Stdin w)) +:+ nl)
         <$> filter (fun x => threshold < Z.of_nat (occurrences x (os_Stdin w)))
               (remove_dups (os_Stdin w)).
Proof.
  intros Hlen Hr. destruct Hr as [kvs Hkvs]. unfold Range in Hkvs.
  fold (stdinCounts (os_Stdin w)) in Hkvs.
  split; [reflexivity|]. eexists. split; [reflexivity|].
  rewrite <- printStdin_listed.
  apply Permutation_flat_map.
  rewrite Hkvs. apply stdinCounts_to_list, Hlen.
Qed.

Lemma DupDetect_reports_above_threshold_witness :
  let w := World (fun _ => None) ["x"; "y"; "x"; "z"; "z"] in
  let r := Run (nl :: flat_map (printStdin 1) (map_to_list (stdinCounts (os_Stdin w))))
               Returned in
  Z.of_nat (List.length (os_Stdin w)) < 2 ^ 63 /\
  DupDetect w 1 r /\
  result r = Returned /\
  exists body,
    stdout r = nl :: body /\
    body ≡ₚ ["2" +:+ tab +:+ "x" +:+ tab +:+ "[1 3]" +:+ nl;
             "2" +:+ tab +:+ "z" +:+ tab +:+ "[4 5]" +:+ nl].
Proof.
  intros w r.
  assert (Z.of_nat (List.length (os_Stdin w)) < 2 ^ 63) as Hlen by (vm_compute; reflexivity).
  assert (DupDetect w 1 r) as Hr by (constructor; unfold Range; reflexivity).
  split; [exact Hlen|]. split; [exact Hr|].
  destruct (DupDetect_reports_above_threshold w 1 r Hlen Hr) as (Hres & body & Hout & Hbody).
  split; [exact Hres|]. exists body. split; [exact Hout|].
  rewrite Hbody. vm_compute. reflexivity.
Defined.

(** X16. With several sources the report is exact: after the separator
    it prints, in the order of the visit, one block for each entry whose
    count is above the threshold (the count, the key, then one line for
    each source of the entry) and nothing for the others; the entries
    printed are those the mapping holds with such a count, each once. *)
Theorem multi_report_filter_exact (threshold : Z) (m : gmap string lineData) (v : visit) :
  Visits m v ->
  (forall k d, (k, d) ∈ emitted threshold v <-> m !! k = Some d /\ threshold < count d) /\
  NoDup (emitted threshold v) /\
  report threshold v =
    ("----" +:+ nl)
    :: flat_map (fun e => (sprintf_d (count (snd (fst e))) +:+ tab +:+ fst (fst e) +:+ nl)
                          :: (printLocation <$> snd e))
         (filter (fun e => threshold < count (snd (fst e))) v).
Proof.
  intros Hv. split; [|split].
  - intros k d. apply emitted_iff, Hv.
  - destruct Hv as [Hr _]. unfold Range in Hr. unfold emitted.
    apply (sublist_NoDup _ (fst <$> v)).
    + rewrite Hr. apply NoDup_map_to_list.
    + apply fmap_sublist, sublist_filter.
  - apply report_emitted.
Qed.

(** A = x, y, x and B = x at threshold 1: x (count 3) is reported, y
    (count 1, equal to the threshold) is not. *)
Lemma multi_report_filter_exact_witness :
  let m := aggregate (concat (sent sample <$> ["A"; "B"])) in
  Visits m (anyVisit m) /\
  ((exists d, ("x", d) ∈ emitted 1 (anyVisit m) /\ count d = 3) /\
   (forall d, ("y", d) ∈ emitted 1 (anyVisit m) -> False)) /\
  NoDup (emitted 1 (anyVisit m)) /\
  report 1 (anyVisit m) =
    ["----" +:+ nl; "3" +:+ tab +:+ "x" +:+ nl;
     tab +:+ "FileName: A, lineNums: [1 3]" +:+ nl;
     tab +:+ "FileName: B, lineNums: [1]" +:+ nl].
Proof.
  intros m.
  pose proof (multi_report_filter_exact 1 m (anyVisit m) (Visits_anyVisit m))
    as (Hiff & Hnd & Hrep).
  split; [apply Visits_anyVisit|]. split; [split|split].
  - exists (LineData (<["A" := [1; 3]]> {["B" := [1]]}) 3).
    split; [|reflexivity]. apply Hiff. split; [vm_compute; reflexivity | simpl; lia].
  - intros d Hd. apply Hiff in Hd as [Hd Hlt].
    vm_compute in Hd. injection Hd as <-. simpl in Hlt. lia.
  - exact Hnd.
  - vm_compute. reflexivity.
Defined.

(** X17. What the report loop of [DupDetectSorted] prints, whatever the
    order of the entries: it goes through the entries above the
    threshold in that order and prints one line for each, up to the
    first one whose list for the file has fewer than two numbers; there
    it panics, and nothing more is printed.  It returns only when it has
    printed every entry above the threshold. *)
Theorem sorted_report_exact (threshold : Z) (f : string) (kvs : list (string * lineData)) :
  exists good rest,
    filter (fun e => threshold < count (snd e)) kvs = good ++ rest /\
    Forall2 (fun e text => printSorted f (fst e) (snd e) = Ok text)
      good (stdout (sortedReport threshold f kvs)) /\
    match rest with
    | [] => result (sortedReport threshold f kvs) = Returned
    | e :: _ =>
        exists msg, printSorted f (fst e) (snd e) = Panic msg /\
                    result (sortedReport threshold f kvs) = Panicked msg
    end.
Proof.
  induction kvs as [|[line d] kvs (good & rest & Hf & Hall & Hres)].
  - exists [], []. split; [reflexivity|]. split; [constructor | reflexivity].
  - rewrite filter_cons. cbn [sortedReport snd].
    destruct (Z.gtb_spec (count d) threshold), (decide (threshold < count d)); try lia.
    + destruct (printSorted f line d) as [text|msg] eqn:Hp.
      * exists ((line, d) :: good), rest. cbn [stdout result].
        split; [rewrite Hf; reflexivity|].
        split; [constructor; [exact Hp | exact Hall] | exact Hres].
      * exists [], ((line, d) :: filter (fun e => threshold < count (snd e)) kvs).
        cbn [stdout result]. split; [reflexivity|].
        split; [constructor | exists msg; split; [exact Hp | reflexivity]].
    + exists good, rest. auto.
Qed.
